(** * posthog/models/utils.py: identifiers, tokens and slugs

    A shallow embedding of the identifier and token core of
    [posthog/models/utils.py]: [UUIDT] and its per-millisecond series
    counter, [uuid7], the random tokens and [mask_key_value],
    [int_to_base], [create_with_slug], [validate_rate_limit] and
    [get_deferred_field_set_for_model], followed by the properties
    proved about them.

    Python integers are [Z]; [str] is [string], read one character per
    code point; [bytes] is [list byte]; the class dictionary
    [current_series_per_ms] is a [gmap Z Z]; exceptions are values of
    [exception] carried by [result]. *)

From Stdlib Require Import ZArith Lia.
From Stdlib.Strings Require Import Ascii Byte.
From stdpp Require Import gmap strings list fin_maps.

Local Open Scope Z_scope.

(** ** Exceptions and results *)

Inductive exc_class :=
  | ValueError
  | OverflowError
  | ZeroDivisionError
  | IndexError
  | IntegrityError
  | OperationalError
  | DataError
  | Exception.

Record exception := Exc { exc_type : exc_class; exc_msg : string }.

Inductive result (A : Type) :=
  | Return (a : A)
  | Raise (e : exception).
Arguments Return {A} a.
Arguments Raise {A} e.

Definition bind {A B} (r : result A) (k : A → result B) : result B :=
  match r with
  | Return a => k a
  | Raise e => Raise e
  end.

Notation "'let*' x ':=' r 'in' k" := (bind r (fun x => k))
  (at level 10, x name, r at level 100, k at level 200, only parsing).

(** ** The parts of Python's [str], [int] and [bytes] that the module uses *)

Module Py.

Definition len (s : string) : Z := Z.of_nat (String.length s).

Fixpoint take (n : nat) (s : string) : string :=
  match n, s with
  | S n', String c s' => String c (take n' s')
  | _, _ => ""
  end.

Fixpoint drop (n : nat) (s : string) : string :=
  match n, s with
  | S n', String _ s' => drop n' s'
  | _, _ => s
  end.

(** A slice bound: a negative bound counts from the end, and every
    bound is clamped to the string. *)
Definition bound (n i : Z) : Z :=
  if i <? 0 then Z.max 0 (i + n) else Z.min i n.

(** [s[start:stop]] *)
Definition slice (start stop : option Z) (s : string) : string :=
  let n := len s in
  let lo := match start with None => 0 | Some i => bound n i end in
  let hi := match stop with None => n | Some j => bound n j end in
  take (Z.to_nat (hi - lo)) (drop (Z.to_nat lo) s).

(** [s[i]], [None] for an [IndexError] *)
Definition getitem (s : string) (i : Z) : option ascii :=
  let n := len s in
  let j := if i <? 0 then i + n else i in
  if (0 <=? j) && (j <? n) then String.get (Z.to_nat j) s else None.

Fixpoint mem (c : ascii) (chars : string) : bool :=
  match chars with
  | EmptyString => false
  | String d chars' => Ascii.eqb c d || mem c chars'
  end.

Fixpoint lstrip (chars s : string) : string :=
  match s with
  | EmptyString => ""
  | String c s' => if mem c chars then lstrip chars s' else s
  end.

Fixpoint rstrip (chars s : string) : string :=
  match s with
  | EmptyString => ""
  | String c s' =>
      match rstrip chars s' with
      | EmptyString => if mem c chars then "" else String c ""
      | r => String c r
      end
  end.

(** [s.strip(chars)] *)
Definition strip (chars s : string) : string := rstrip chars (lstrip chars s).

(** [s.replace(old, "")] for a non-empty [old]: the occurrences are
    found left to right and do not overlap. [skip] counts the
    characters of a found occurrence that are still to be dropped. *)
Fixpoint remove_from (old : string) (skip : nat) (s : string) : string :=
  match s with
  | EmptyString => ""
  | String c s' =>
      match skip with
      | S k => remove_from old k s'
      | O =>
          if String.prefix old s
          then remove_from old (String.length old - 1) s'
          else String c (remove_from old 0 s')
      end
  end.

Definition remove (old s : string) : string := remove_from old 0 s.

(** [x.to_bytes(n, "big", signed=False)] *)
Definition byte_of_Z (z : Z) : byte :=
  match Byte.of_N (Z.to_N (z mod 256)) with
  | Some b => b
  | None => x00
  end.

Fixpoint big_endian (n : nat) (x : Z) : list byte :=
  match n with
  | O => []
  | S n' => big_endian n' (x / 256) ++ [byte_of_Z x]
  end.

Definition to_bytes (x : Z) (n : nat) : result (list byte) :=
  if (0 <=? x) && (x <? 256 ^ Z.of_nat n)
  then Return (big_endian n x)
  else Raise (Exc OverflowError "int too big to convert").

Definition Z_of_byte (b : byte) : Z := Z.of_N (Byte.to_N b).

(** [int.from_bytes(b, "big")] and [int.from_bytes(b, byteorder="little")] *)
Definition from_bytes_big (b : list byte) : Z :=
  fold_left (fun acc x => acc * 256 + Z_of_byte x) b 0.

Definition from_bytes_little (b : list byte) : Z :=
  fold_right (fun x acc => Z_of_byte x + 256 * acc) 0 b.

End Py.

(** ** Random sources

    A source of random numbers ([random.Random], or the system source
    behind [secrets]) is the stream of raw numbers it is going to
    produce and a cursor into it. Every draw is reduced into the range
    the drawing function promises, so a stream is any function. *)

Record Random := { tape : nat → Z; cursor : nat }.

Definition advance (r : Random) : Random :=
  {| tape := tape r; cursor := S (cursor r) |}.

(** [r.getrandbits(k)] *)
Definition getrandbits (k : Z) (r : Random) : Z * Random :=
  (tape r (cursor r) mod 2 ^ k, advance r).

(** [secrets.choice(seq)] is [seq[randbelow(len(seq))]] *)
Definition randbelow (n : Z) (r : Random) : Z * Random :=
  (tape r (cursor r) mod n, advance r).

Fixpoint random_bytes (n : nat) (r : Random) : list byte * Random :=
  match n with
  | O => ([], r)
  | S n' =>
      let '(x, r1) := getrandbits 8 r in
      let '(rest, r2) := random_bytes n' r1 in
      (Py.byte_of_Z x :: rest, r2)
  end.

(** [secrets.token_bytes(n)] *)
Definition token_bytes (n : nat) (r : Random) : list byte * Random :=
  random_bytes n r.

(** ** mask_key_value *)

Definition mask_key_value (value : string) : string :=
  if Py.len value <? 16
  then "********"
  else Py.slice None (Some 4) value +:+ "..." +:+ Py.slice (Some (-4)) None value.

(** ** int_to_base *)

Definition digits : string := "0123456789".
Definition ascii_letters : string :=
  "abcdefghijklmnopqrstuvwxyzABCDEFGHIJKLMNOPQRSTUVWXYZ".
Definition BASE62 : string := digits +:+ ascii_letters.

(** The [while number != 0] loop. [fuel] bounds the number of
    iterations; [None] is a run that has not finished within it. *)
Fixpoint encode_loop (fuel : nat) (alphabet : string) (number : Z) (value : string)
  : option (result string) :=
  if number =? 0 then Some (Return value)
  else
    match fuel with
    | O => None
    | S fuel' =>
        let n := Py.len alphabet in
        if n =? 0 then Some (Raise (Exc ZeroDivisionError "integer division or modulo by zero"))
        else
          let q := number / n in
          let index := number mod n in
          match Py.getitem alphabet index with
          | Some c => encode_loop fuel' alphabet q (String c value)
          | None => Some (Raise (Exc IndexError "string index out of range"))
          end
    end.

Fixpoint int_to_base (fuel : nat) (number base : Z) : option (result string) :=
  if 62 <? base then Some (Raise (Exc ValueError "Cannot convert integer to base above 62"))
  else
    let alphabet := Py.slice None (Some base) BASE62 in
    if number <? 0 then
      match fuel with
      | O => None
      | S fuel' =>
          match int_to_base fuel' (- number) base with
          | Some (Return s) => Some (Return ("-" +:+ s))
          | other => other
          end
      end
    else
      match encode_loop fuel alphabet number "" with
      | Some (Return value) =>
          Some (Return (match value with EmptyString => "0" | _ => value end))
      | other => other
      end.

(** ** UUIDT *)

(** What a call reads and updates outside its arguments: the class
    dictionary of [UUIDT], the clock and the system's random source.
    [clock_ms] is [int(time() * 1000)] and [clock_ns] is [time_ns()] as
    a call made now would read them. *)
Record world := World {
  current_series_per_ms : gmap Z Z;
  clock_ms : Z;
  clock_ns : Z;
  secrets : Random
}.

Definition set_series (m : gmap Z Z) (w : world) : world :=
  World m (clock_ms w) (clock_ns w) (secrets w).

Definition set_secrets (r : Random) (w : world) : world :=
  World (current_series_per_ms w) (clock_ms w) (clock_ns w) r.

(** [d[k]] on a [defaultdict(int)]: a missing key is inserted with 0. *)
Definition defaultdict_getitem (k : Z) (d : gmap Z Z) : Z * gmap Z Z :=
  match d !! k with
  | Some v => (v, d)
  | None => (0, <[k := 0]> d)
  end.

(** The counter of [t] as [get_series] reads it: 0 when untracked. *)
Definition counter (t : Z) (d : gmap Z Z) : Z := default 0 (d !! t).

(** The dictionary after the first line of [get_series]. *)
Definition series_read (unix_time_ms : Z) (d : gmap Z Z) : gmap Z Z :=
  (defaultdict_getitem unix_time_ms d).2.

(** The dictionary after the [if len(...) > 10_000] statement. *)
Definition series_evict (unix_time_ms series : Z) (d : gmap Z Z) : gmap Z Z :=
  if 10000 <? Z.of_nat (size d) then <[unix_time_ms := series]> ∅ else d.

Definition get_series (unix_time_ms : Z) (d : gmap Z Z) : Z * gmap Z Z :=
  let '(series, d1) := defaultdict_getitem unix_time_ms d in
  let d2 := series_evict unix_time_ms series d1 in
  let '(v, d3) := defaultdict_getitem unix_time_ms d2 in
  let d4 := <[unix_time_ms := v + 1]> d3 in
  let '(v', d5) := defaultdict_getitem unix_time_ms d4 in
  let d6 := <[unix_time_ms := v' mod 65536]> d5 in
  (series, d6).

(** [get_series] with the eviction statement left out, to compare with. *)
Definition get_series_without_eviction (unix_time_ms : Z) (d : gmap Z Z)
  : Z * gmap Z Z :=
  let '(series, d1) := defaultdict_getitem unix_time_ms d in
  let '(v, d3) := defaultdict_getitem unix_time_ms d1 in
  let d4 := <[unix_time_ms := v + 1]> d3 in
  let '(v', d5) := defaultdict_getitem unix_time_ms d4 in
  let d6 := <[unix_time_ms := v' mod 65536]> d5 in
  (series, d6).

(** The dictionaries a process can hold between two calls: it starts
    empty and only [get_series] writes to it. *)
Inductive reachable : gmap Z Z → Prop :=
  | reachable_empty : reachable ∅
  | reachable_get_series t d : reachable d → reachable (get_series t d).2.

(** [get_series] called for each timestamp of a list in turn. *)
Fixpoint get_series_run (ts : list Z) (d : gmap Z Z) : list Z * gmap Z Z :=
  match ts with
  | [] => ([], d)
  | t :: ts' =>
      let '(s, d1) := get_series t d in
      let '(ss, d2) := get_series_run ts' d1 in
      (s :: ss, d2)
  end.

(** The dictionary after one call for each of the timestamps 0, ...,
    9999: the fullest one a process can hold between two calls. *)
Definition full_dictionary : gmap Z Z :=
  (get_series_run (Z.of_nat <$> seq 0 (Z.to_nat 10000)) ∅).2.

Section UUID.

(** [int(s, 16)] of the interpreter; [None] is its [ValueError]. *)
Variable int16 : string → option Z.

(** [int(datetime.fromisoformat(s).timestamp() * 1000)]; [None] is
    the [ValueError] of [fromisoformat]. *)
Variable isoformat_ms : string → option Z.

Definition int_hex (s : string) : result Z :=
  match int16 s with
  | Some n => Return n
  | None => Raise (Exc ValueError "invalid literal for int() with base 16")
  end.

(** The decoration both [is_valid_uuid] and [uuid.UUID] take off. *)
Definition undecorate (candidate : string) : string :=
  let hex := Py.remove "uuid:" (Py.remove "urn:" candidate) in
  Py.remove "-" (Py.strip "{}" hex).

Definition is_valid_uuid (candidate : string) : result bool :=
  let hex := undecorate candidate in
  if negb (Py.len hex =? 32) then Return false
  else
    let* n := int_hex hex in
    Return ((0 <=? n) && (n <? 2 ^ 128)).

(** [uuid.UUID(int=n)] *)
Definition UUID_of_int (n : Z) : result Z :=
  if (0 <=? n) && (n <? 2 ^ 128) then Return n
  else Raise (Exc ValueError "int is out of range (need a 128-bit value)").

(** [uuid.UUID(hex)] *)
Definition UUID_of_hex (s : string) : result Z :=
  let hex := undecorate s in
  if negb (Py.len hex =? 32)
  then Raise (Exc ValueError "badly formed hexadecimal UUID string")
  else
    let* n := int_hex hex in
    UUID_of_int n.

(** [uuid.UUID(bytes=b)] *)
Definition UUID_of_bytes (b : list byte) : result Z :=
  if negb (Z.of_nat (length b) =? 16)
  then Raise (Exc ValueError "bytes is not a 16-char string")
  else UUID_of_int (Py.from_bytes_big b).

(** [bool(uuid_str)] *)
Definition truthy (uuid_str : option string) : option string :=
  match uuid_str with
  | Some EmptyString | None => None
  | Some s => Some s
  end.

(** The second half of [UUIDT.__init__]: a fresh identifier from the
    clock ([mint_time], when no timestamp is given), the counter and a
    random source. *)
Definition mint_time (unix_time_ms : option Z) (w : world) : Z :=
  match unix_time_ms with
  | Some t => t
  | None => clock_ms w
  end.

Definition UUIDT_mint (unix_time_ms : option Z) (seeded_random : option Random)
    (w : world) : result Z * world * option Random :=
  let unix_time_ms := mint_time unix_time_ms w in
  match Py.to_bytes unix_time_ms 6 with
  | Raise e => (Raise e, w, seeded_random)
  | Return time_component =>
      let '(series, d) := get_series unix_time_ms (current_series_per_ms w) in
      let w1 := set_series d w in
      match Py.to_bytes series 2 with
      | Raise e => (Raise e, w1, seeded_random)
      | Return series_component =>
          let '(random_component, w2, seeded_random') :=
            match seeded_random with
            | Some r => let '(b, r') := random_bytes 8 r in (b, w1, Some r')
            | None => let '(b, s') := token_bytes 8 (secrets w1) in
                      (b, set_secrets s' w1, None)
            end in
          let input_bytes := time_component ++ series_component ++ random_component in
          (UUID_of_bytes input_bytes, w2, seeded_random')
      end
  end.

Definition UUIDT_init (unix_time_ms : option Z) (uuid_str : option string)
    (seeded_random : option Random) (w : world)
  : result Z * world * option Random :=
  match truthy uuid_str with
  | None => UUIDT_mint unix_time_ms seeded_random w
  | Some s =>
      match is_valid_uuid s with
      | Raise e => (Raise e, w, seeded_random)
      | Return true => (UUID_of_hex s, w, seeded_random)
      | Return false => UUIDT_mint unix_time_ms seeded_random w
      end
  end.

(** The fields of a [UUIDT] value. *)
Definition UUIDT_timestamp (u : Z) : Z := Z.shiftr u 80.
Definition UUIDT_series (u : Z) : Z := Z.land (Z.shiftr u 64) 65535.
Definition UUIDT_random (u : Z) : Z := Z.land u (2 ^ 64 - 1).

(** ** uuid7 *)

Inductive time_arg :=
  | TimeNone
  | TimeInt (unix_ms_time : Z)
  | TimeStr (iso : string).

Inductive random_arg :=
  | RandomNone
  | RandomInt (seed : Z)
  | RandomGen (r : Random).

(** The timestamp part. *)
Definition uuid7_time (unix_ms_time : time_arg) (w : world) : result Z :=
  match unix_ms_time with
  | TimeStr s =>
      match isoformat_ms s with
      | Some t => Return t
      | None => Raise (Exc ValueError "Invalid isoformat string")
      end
  | TimeNone => Return (clock_ns w / 10 ^ 6)
  | TimeInt t => Return t
  end.

(** The random part: [rand_a], [rand_b], and the sources as the draws
    left them. *)
Definition uuid7_random (random : random_arg) (w : world)
  : Z * Z * world * option Random :=
  match random with
  | RandomInt seed =>
      (Z.land seed 0x0FFF,
       Z.land (Z.shiftr seed 12) 0x03FFFFFFFFFFFFFFF, w, None)
  | RandomGen r =>
      let '(a, r1) := getrandbits 12 r in
      let '(b, r2) := getrandbits 56 r1 in
      (a, b, w, Some r2)
  | RandomNone =>
      let '(bs, s') := token_bytes 10 (secrets w) in
      let rand_bytes := Py.from_bytes_little bs in
      (Z.land rand_bytes 0x0FFF,
       Z.land (Z.shiftr rand_bytes 12) 0x03FFFFFFFFFFFFFFF,
       set_secrets s' w, None)
  end.

(** The fixed constants and the construction of the UUID int. *)
Definition uuid7_int (unix_ms_time_int rand_a rand_b : Z) : Z :=
  let ver := 7 in
  let var := 2 in
  let uuid_int := Z.shiftl (Z.land unix_ms_time_int 0x0FFFFFFFFFFFF) 80 in
  let uuid_int := Z.lor uuid_int (Z.shiftl ver 76) in
  let uuid_int := Z.lor uuid_int (Z.shiftl rand_a 64) in
  let uuid_int := Z.lor uuid_int (Z.shiftl var 62) in
  let uuid_int := Z.lor uuid_int rand_b in
  uuid_int.

Definition uuid7 (unix_ms_time : time_arg) (random : random_arg) (w : world)
  : result Z * world * option Random :=
  match uuid7_time unix_ms_time w with
  | Raise e => (Raise e, w, None)
  | Return unix_ms_time_int =>
      let '(rand_a, rand_b, w1, gen) := uuid7_random random w in
      (UUID_of_int (uuid7_int unix_ms_time_int rand_a rand_b), w1, gen)
  end.

(** The fields of the layout of a version 7 value. *)
Definition uuid7_timestamp (u : Z) : Z := Z.shiftr u 80.
Definition uuid7_version (u : Z) : Z := Z.land (Z.shiftr u 76) 15.
Definition uuid7_rand_a (u : Z) : Z := Z.land (Z.shiftr u 64) 0xFFF.
Definition uuid7_variant (u : Z) : Z := Z.land (Z.shiftr u 62) 3.
Definition uuid7_rand_b (u : Z) : Z := Z.land u (2 ^ 62 - 1).

End UUID.

(** [k] identifiers constructed one after the other as
    [UUIDT(unix_time_ms, seeded_random=...)]: what each construction
    gave, in order, and the world and the generator as the last one
    left them. *)
Fixpoint UUIDT_generations (int16 : string → option Z) (k : nat) (unix_time_ms : Z)
    (seeded_random : option Random) (w : world)
  : list (result Z) * world * option Random :=
  match k with
  | O => ([], w, seeded_random)
  | S k' =>
      let '(u, w1, r1) := UUIDT_init int16 (Some unix_time_ms) None seeded_random w in
      let '(us, w2, r2) := UUIDT_generations int16 k' unix_time_ms r1 w1 in
      (u :: us, w2, r2)
  end.

(** ** create_with_slug *)

Definition is_IntegrityError (e : exception) : bool :=
  match exc_type e with
  | IntegrityError => true
  | _ => false
  end.

(** [secrets.choice(seq)] for a non-empty [seq]. *)
Definition choice (seq : string) (r : Random) : ascii * Random :=
  let '(i, r1) := randbelow (Py.len seq) r in
  (match Py.getitem seq i with Some c => c | None => Ascii.zero end, r1).

Fixpoint random_letters (n : nat) (r : Random) : string * Random :=
  match n with
  | O => ("", r)
  | S n' =>
      let '(c, r1) := choice ascii_letters r in
      let '(rest, r2) := random_letters n' r1 in
      (String c rest, r2)
  end.

Definition generate_random_short_suffix (r : Random) : string * Random :=
  random_letters 4 r.

(** Every character of [s] is one of [string.ascii_letters]. *)
Fixpoint letters_only (s : string) : bool :=
  match s with
  | EmptyString => true
  | String c s' => Py.mem c ascii_letters && letters_only s'
  end.

Definition exhausted : exception :=
  Exc Exception "Could not create a model instance with slug in 10 tries!".

Section Slug.

(** [T] is what [create_func] returns and [DB] the state of the
    database it writes to. *)
Variables T DB : Type.

(** [django.utils.text.slugify] and [posthog.constants.MAX_SLUG_LENGTH]. *)
Variable slugify : string → string.
Variable MAX_SLUG_LENGTH : Z.

(** [with transaction.atomic()]: what the block wrote is rolled back
    when an exception leaves it. *)
Definition atomic {A} (body : DB → result A * DB) (db : DB) : result A * DB :=
  match body db with
  | (Return a, db') => (Return a, db')
  | (Raise e, _) => (Raise e, db)
  end.

(** What a call of [create_with_slug] leaves behind: its result, the
    database, the random source, and the slugs it passed to
    [create_func], first attempt first. *)
Record slug_run := SlugRun {
  run_result : result T;
  run_db : DB;
  run_random : Random;
  run_slugs : list string
}.

Definition attempted (slug : string) (r : slug_run) : slug_run :=
  SlugRun (run_result r) (run_db r) (run_random r) (slug :: run_slugs r).

(** The slug of attempt [retry_i]. *)
Definition candidate_slug (retry_i : nat) (slugified_name : string) (r : Random)
  : string * Random :=
  match retry_i with
  | O => (slugified_name, r)
  | S _ =>
      let '(suffix, r1) := generate_random_short_suffix r in
      (Py.slice None (Some (MAX_SLUG_LENGTH - 5)) slugified_name +:+ "-" +:+ suffix, r1)
  end.

(** A slug of a retry: the base cut to [MAX_SLUG_LENGTH - 5]
    characters, a hyphen and four letters. *)
Definition retry_slug (base slug : string) : Prop :=
  ∃ suffix,
    slug = Py.take (Z.to_nat (MAX_SLUG_LENGTH - 5)) base +:+ "-" +:+ suffix ∧
    String.length suffix = 4%nat ∧ letters_only suffix = true.

(** The [for retry_i in range(10)] loop, over the values [retry_i] is
    still to take. [create_func] stands for the call with its
    positional arguments already given. *)
Fixpoint retry_loop (retries : list nat)
    (create_func : gmap string string → DB → result T * DB)
    (slugified_name : string) (kwargs : gmap string string)
    (db : DB) (r : Random) : slug_run :=
  match retries with
  | [] => SlugRun (Raise exhausted) db r []
  | retry_i :: retries' =>
      let '(slug, r1) := candidate_slug retry_i slugified_name r in
      let kwargs1 := <["slug" := slug]> kwargs in
      match atomic (create_func kwargs1) db with
      | (Return v, db1) => SlugRun (Return v) db1 r1 [slug]
      | (Raise e, db1) =>
          if is_IntegrityError e
          then attempted slug (retry_loop retries' create_func slugified_name kwargs1 db1 r1)
          else SlugRun (Raise e) db1 r1 [slug]
      end
  end.

(** How a run ends, given what [create_func] did at its last attempt
    and how many retries were left then: a value is returned, an
    exception is passed on unless it is an [IntegrityError], and an
    [IntegrityError] ends the run only when no retry is left. *)
Definition ends_with (retries_left : nat) (db : DB)
    (run : slug_run) (last : result T * DB) : Prop :=
  match last with
  | (Return v, db') => run_result run = Return v ∧ run_db run = db'
  | (Raise e, _) =>
      run_db run = db ∧
      if is_IntegrityError e
      then retries_left = 0%nat ∧ run_result run = Raise exhausted
      else run_result run = Raise e
  end.

Definition slugified (default_slug : string) (kwargs : gmap string string) : string :=
  match kwargs !! "name" with
  | Some name => Py.slice None (Some MAX_SLUG_LENGTH) (slugify name)
  | None => default_slug
  end.

Definition create_with_slug
    (create_func : gmap string string → DB → result T * DB)
    (default_slug : string) (kwargs : gmap string string)
    (db : DB) (r : Random) : slug_run :=
  retry_loop (seq 0 10) create_func (slugified default_slug kwargs) kwargs db r.

End Slug.

Arguments SlugRun {T DB}.
Arguments run_result {T DB}.
Arguments run_db {T DB}.
Arguments run_random {T DB}.
Arguments run_slugs {T DB}.
Arguments atomic {DB A}.
Arguments ends_with {T DB}.
Arguments retry_loop {T DB}.
Arguments create_with_slug {T DB}.

(** ** Random tokens *)

(** [secrets.randbits(k)] *)
Definition randbits (k : Z) (r : Random) : result Z * Random :=
  if k <? 0 then (Raise (Exc ValueError "number of bits must be non-negative"), r)
  else let '(x, r') := getrandbits k r in (Return x, r').

(** [fuel] is that of [int_to_base]; the default of [nbytes] is 32. *)
Definition generate_random_token (fuel : nat) (nbytes : Z) (w : world)
  : option (result string) * world :=
  match randbits (nbytes * 8) (secrets w) with
  | (Raise e, _) => (Some (Raise e), w)
  | (Return n, r') => (int_to_base fuel n 62, set_secrets r' w)
  end.

(** [prefix + generate_random_token(...)] *)
Definition with_prefix (prefix : string) (token : option (result string) * world)
  : option (result string) * world :=
  match token with
  | (Some (Return s), w) => (Some (Return (prefix +:+ s)), w)
  | other => other
  end.

Definition generate_random_token_project (fuel : nat) (w : world) :=
  with_prefix "phc_" (generate_random_token fuel 32 w).

Definition generate_random_token_personal (fuel : nat) (w : world) :=
  with_prefix "phx_" (generate_random_token fuel 35 w).

Definition generate_random_token_secret (fuel : nat) (w : world) :=
  with_prefix "phs_" (generate_random_token fuel 35 w).

(** Every character of [s] is one of [chars]. *)
Fixpoint all_in (chars s : string) : bool :=
  match s with
  | EmptyString => true
  | String c s' => Py.mem c chars && all_in chars s'
  end.

(** The position of [c] in [chars], and the number a string of
    [BASE62] digits denotes in a base: what [int_to_base] is read back
    with. *)
Fixpoint position (c : ascii) (chars : string) : option Z :=
  match chars with
  | EmptyString => None
  | String d chars' =>
      if Ascii.eqb c d then Some 0
      else match position c chars' with
           | Some i => Some (i + 1)
           | None => None
           end
  end.

Fixpoint digits_value (base acc : Z) (s : string) : option Z :=
  match s with
  | EmptyString => Some acc
  | String c s' =>
      match position c BASE62 with
      | Some v => digits_value base (acc * base + v) s'
      | None => None
      end
  end.

Definition base_to_int (base : Z) (s : string) : option Z :=
  match s with
  | String "-" s' =>
      match digits_value base 0 s' with
      | Some n => Some (- n)
      | None => None
      end
  | _ => digits_value base 0 s
  end.

(** ** validate_rate_limit *)

(** The regular expressions [validate_rate_limit] needs, and what
    [re.match] decides for them: whether the pattern matches from the
    start of the string. [deriv] is the pattern left after one
    character. *)
Inductive regex :=
  | Never
  | Eps
  | Class (p : ascii → bool)
  | Cat (r1 r2 : regex)
  | Alt (r1 r2 : regex)
  | Star (r : regex).

(** [r+], a literal, [[lo-hi]], and [$]: the end of the string or just
    before the newline that ends it. *)
Definition Plus (r : regex) : regex := Cat r (Star r).

Fixpoint Lit (s : string) : regex :=
  match s with
  | EmptyString => Eps
  | String c s' => Cat (Class (Ascii.eqb c)) (Lit s')
  end.

Definition in_range (lo hi c : ascii) : bool :=
  (nat_of_ascii lo <=? nat_of_ascii c)%nat && (nat_of_ascii c <=? nat_of_ascii hi)%nat.

Definition newline : ascii := ascii_of_nat 10.

Definition Dollar : regex := Alt Eps (Class (Ascii.eqb newline)).

Fixpoint nullable (r : regex) : bool :=
  match r with
  | Never => false
  | Eps => true
  | Class _ => false
  | Cat r1 r2 => nullable r1 && nullable r2
  | Alt r1 r2 => nullable r1 || nullable r2
  | Star _ => true
  end.

Fixpoint deriv (c : ascii) (r : regex) : regex :=
  match r with
  | Never => Never
  | Eps => Never
  | Class p => if p c then Eps else Never
  | Cat r1 r2 =>
      Alt (Cat (deriv c r1) r2) (if nullable r1 then deriv c r2 else Never)
  | Alt r1 r2 => Alt (deriv c r1) (deriv c r2)
  | Star r1 => Cat (deriv c r1) (Star r1)
  end.

(** [re.match(r, s)] for a pattern that ends in [$]: a match from the
    start of the string that reaches its end. *)
Fixpoint re_match (r : regex) (s : string) : bool :=
  match s with
  | EmptyString => nullable r
  | String c s' => re_match (deriv c r) s'
  end.

(** The strings a pattern matches. *)
Inductive matches : regex → string → Prop :=
  | matches_eps : matches Eps ""
  | matches_class p c : p c = true → matches (Class p) (String c "")
  | matches_cat r1 r2 s1 s2 :
      matches r1 s1 → matches r2 s2 → matches (Cat r1 r2) (s1 +:+ s2)
  | matches_alt_l r1 r2 s : matches r1 s → matches (Alt r1 r2) s
  | matches_alt_r r1 r2 s : matches r2 s → matches (Alt r1 r2) s
  | matches_star_nil r : matches (Star r) ""
  | matches_star_cons r s1 s2 :
      matches r s1 → matches (Star r) s2 → matches (Star r) (s1 +:+ s2).

(** ["^[0-9]+/(s|sec|m|min|h|hour|d|day)$"] *)
Definition rate_limit_units : list string :=
  ["s"; "sec"; "m"; "min"; "h"; "hour"; "d"; "day"].

Definition rate_limit_pattern : regex :=
  Cat (Plus (Class (in_range "0" "9")))
      (Cat (Lit "/")
           (Cat (foldr (λ u r, Alt (Lit u) r) Never rate_limit_units) Dollar)).

Inductive validation :=
  | Passes
  | ValidationError (value : string).

Definition validate_rate_limit (value : option string) : validation :=
  match value with
  | None => Passes
  | Some v =>
      if negb (String.eqb v "") && negb (re_match rate_limit_pattern v)
      then ValidationError v
      else Passes
  end.

(** The format the pattern describes: a count, a slash, a unit, and
    at most one newline after it. *)
Definition rate_limit_format (v : string) : Prop :=
  ∃ count unit tail,
    v = count +:+ "/" +:+ unit +:+ tail ∧
    count ≠ "" ∧ all_in digits count = true ∧
    unit ∈ rate_limit_units ∧
    (tail = "" ∨ tail = String newline "").

(** ** get_deferred_field_set_for_model *)

(** [fields] are the names of [model._meta.fields], in their order. *)
Definition get_deferred_field_set_for_model (fields : list string)
    (fields_not_deferred : option (gset string)) (field_prefix : string)
  : gset string :=
  let fields_not_deferred := default ∅ fields_not_deferred in
  list_to_set
    ((λ x, field_prefix +:+ x)
       <$> filter (λ x, x ∉ fields_not_deferred) fields).

(** ** Stand-ins for the interpreter and Django in closed examples

    The properties below hold for every [int16], [isoformat_ms] and
    [slugify]; an example on concrete input needs one of each. *)

Definition hex_digit (c : ascii) : option Z :=
  let n := Z.of_nat (nat_of_ascii c) in
  if (48 <=? n) && (n <=? 57) then Some (n - 48)
  else if (97 <=? n) && (n <=? 102) then Some (n - 87)
  else if (65 <=? n) && (n <=? 70) then Some (n - 55)
  else None.

(** The digits after a first one, single underscores between them. *)
Fixpoint hex_tail (acc : Z) (s : string) : option Z :=
  match s with
  | EmptyString => Some acc
  | String c s' =>
      if Ascii.eqb c "_" then
        match s' with
        | String d s'' =>
            match hex_digit d with
            | Some v => hex_tail (acc * 16 + v) s''
            | None => None
            end
        | EmptyString => None
        end
      else
        match hex_digit c with
        | Some v => hex_tail (acc * 16 + v) s'
        | None => None
        end
  end.

Definition hex_number (s : string) : option Z :=
  match s with
  | String d s' =>
      match hex_digit d with
      | Some v => hex_tail v s'
      | None => None
      end
  | EmptyString => None
  end.

Definition ascii_whitespace : string :=
  String (ascii_of_nat 9) (String (ascii_of_nat 10) (String (ascii_of_nat 11)
  (String (ascii_of_nat 12) (String (ascii_of_nat 13) " ")))).

(** [int(s, 16)] on ASCII text: blanks around, a sign, [0x] or [0X],
    and hexadecimal digits with single underscores between them. *)
Definition int16_ascii (s : string) : option Z :=
  let s := Py.strip ascii_whitespace s in
  let '(sign, s) :=
    match s with
    | String "-" s' => (-1, s')
    | String "+" s' => (1, s')
    | _ => (1, s)
    end in
  let s :=
    match s with
    | String "0" (String "x" s') | String "0" (String "X" s') =>
        match s' with
        | String "_" s'' => s''
        | _ => s'
        end
    | _ => s
    end in
  match hex_number s with
  | Some n => Some (sign * n)
  | None => None
  end.

Definition isoformat_unsupported (s : string) : option Z := None.

(** A world to run examples in: nothing tracked yet, the clock at
    1700000000000 ms, and a random source that yields 0, 1, 2, ... *)
Definition counting : Random := {| tape := Z.of_nat; cursor := 0 |}.

Definition fresh_world : world :=
  World ∅ 1700000000000 1700000000000000000 counting.

(** The world of a process that has minted 65535 identifiers in the
    millisecond 1700000000000. *)
Definition busy_world : world :=
  World (get_series_run (replicate (Z.to_nat 65535) 1700000000000) ∅).2
        1700000000000 1700000000000000000 counting.

Definition slugify_id (s : string) : string := s.

(** A [create_func] that fails the same way at every call, over a
    database without content. *)
Definition failing_create (e : exception)
  : gmap string string → unit → result unit * unit :=
  λ _ db, (Raise e, db).

Definition not_null_violation : exception :=
  Exc IntegrityError "null value in column owner_id violates not-null constraint".

Definition duplicate_slug : exception :=
  Exc IntegrityError "duplicate key value violates unique constraint posthog_team_slug_key".

(* ================================================================== *)
(** * Properties *)

Example mask_short : mask_key_value "phx_abcdEFGH" = "********".
Proof. reflexivity. Qed.

Example mask_long :
  mask_key_value "phx_0123456789abcdefWXYZ" = "phx_...WXYZ".
Proof. reflexivity. Qed.

Example int_to_base_12345 : int_to_base 10 12345 62 = Some (Return "3d7").
Proof. reflexivity. Qed.

Example int_to_base_minus_255 : int_to_base 10 (-255) 16 = Some (Return "-ff").
Proof. reflexivity. Qed.

Example int_to_base_neg_base : int_to_base 10 61 (-1) = Some (Return "10").
Proof. reflexivity. Qed.

Example int16_ascii_examples :
  int16_ascii "0x1f" = Some 31 ∧ int16_ascii " f_f " = Some 255 ∧
  int16_ascii "-ff" = Some (-255) ∧ int16_ascii "ff_" = None ∧
  int16_ascii "0x" = None ∧ int16_ascii "" = None.
Proof. repeat split. Qed.

Example UUIDT_from_string :
  UUIDT_init int16_ascii None
    (Some "urn:uuid:{018bcfe5-6800-0000-0001-020304050607}") None fresh_world
  = (Return 0x018bcfe5680000000001020304050607, fresh_world, None).
Proof. vm_compute. reflexivity. Qed.

(** Three identifiers minted at one fixed timestamp carry the series
    0, 1 and 2 and the same timestamp. *)
Example UUIDT_three_in_a_millisecond :
  let '(u0, w0, _) := UUIDT_init int16_ascii (Some 1700000000000) None None fresh_world in
  let '(u1, w1, _) := UUIDT_init int16_ascii (Some 1700000000000) None None w0 in
  let '(u2, _, _) := UUIDT_init int16_ascii (Some 1700000000000) None None w1 in
  match u0, u1, u2 with
  | Return a, Return b, Return c =>
      [UUIDT_series a; UUIDT_series b; UUIDT_series c] = [0; 1; 2] ∧
      [UUIDT_timestamp a; UUIDT_timestamp b; UUIDT_timestamp c]
        = [1700000000000; 1700000000000; 1700000000000]
  | _, _, _ => False
  end.
Proof. vm_compute. auto. Qed.

(** ** Strings: [take], [drop] and slices *)

Lemma append_cons (c : ascii) (s1 s2 : string) :
  String c s1 +:+ s2 = String c (s1 +:+ s2).
Proof. reflexivity. Qed.

Lemma take_drop (n : nat) (s : string) : Py.take n s +:+ Py.drop n s = s.
Proof.
  revert s. induction n as [|n IH]; intros [|c s]; try reflexivity.
  simpl. rewrite append_cons. f_equal. apply IH.
Qed.

Lemma drop_drop (a b : nat) (s : string) :
  Py.drop a (Py.drop b s) = Py.drop (b + a) s.
Proof.
  revert s. induction b as [|b IH]; intros s; [reflexivity|].
  destruct s as [|c s]; simpl; [now destruct a | apply IH].
Qed.

Lemma length_take (n : nat) (s : string) :
  String.length (Py.take n s) = Nat.min n (String.length s).
Proof.
  revert s. induction n as [|n IH]; intros [|c s]; simpl; try reflexivity.
  now rewrite IH.
Qed.

Lemma length_drop (n : nat) (s : string) :
  String.length (Py.drop n s) = (String.length s - n)%nat.
Proof.
  revert s. induction n as [|n IH]; intros [|c s]; simpl; try reflexivity.
  apply IH.
Qed.

Lemma length_append (s1 s2 : string) :
  String.length (s1 +:+ s2) = (String.length s1 + String.length s2)%nat.
Proof.
  induction s1 as [|c s1 IH]; [reflexivity|].
  rewrite append_cons. simpl. now rewrite IH.
Qed.

Lemma take_all (n : nat) (s : string) :
  (String.length s ≤ n)%nat → Py.take n s = s.
Proof.
  revert s. induction n as [|n IH]; intros [|c s] H; simpl in *; try reflexivity.
  - lia.
  - rewrite IH; [reflexivity | lia].
Qed.

(** [s[:k]] for [0 ≤ k] is the first [k] characters. *)
Lemma slice_prefix (k : Z) (s : string) :
  0 ≤ k → Py.slice None (Some k) s = Py.take (Z.to_nat k) s.
Proof.
  intros Hk. unfold Py.slice, Py.bound, Py.len.
  destruct (Z.ltb_spec k 0) as [?|_]; [lia|].
  simpl. rewrite Z.sub_0_r.
  destruct (Z.le_ge_cases k (Z.of_nat (String.length s))) as [H|H].
  - now rewrite Z.min_l.
  - rewrite Z.min_r by lia. rewrite Nat2Z.id.
    rewrite !take_all; [reflexivity | lia | lia].
Qed.

(** [s[-k:]] for [0 < k ≤ len(s)] is what is left after the first
    [len(s) - k] characters. *)
Lemma slice_suffix (k : nat) (s : string) :
  (0 < k ≤ String.length s)%nat →
  Py.slice (Some (- Z.of_nat k)) None s = Py.drop (String.length s - k) s.
Proof.
  intros Hk. unfold Py.slice, Py.bound, Py.len.
  destruct (Z.ltb_spec (- Z.of_nat k) 0) as [_|?]; [|lia].
  rewrite Z.max_r by lia.
  replace (Z.to_nat (- Z.of_nat k + Z.of_nat (String.length s)))
    with (String.length s - k)%nat by lia.
  apply take_all. rewrite length_drop. lia.
Qed.

(** ** mask_key_value *)

(** C1, as the code has it: a value shorter than 16 characters is
    masked whole as eight asterisks, the 12-character "phx_abcdEFGH"
    among them; a value of 16 characters or more keeps its first 4 and
    its last 4 characters around a literal "...". *)
Theorem mask_key_value_spec (value : string) :
  ((String.length value < 16)%nat → mask_key_value value = "********") ∧
  ((16 ≤ String.length value)%nat →
     ∃ first middle last : string,
       value = first +:+ middle +:+ last ∧
       String.length first = 4%nat ∧ String.length last = 4%nat ∧
       mask_key_value value = first +:+ "..." +:+ last) ∧
  mask_key_value "phx_abcdEFGH" = "********".
Proof.
  split; [|split]; [| |reflexivity].
  - intros H. unfold mask_key_value, Py.len.
    destruct (Z.ltb_spec (Z.of_nat (String.length value)) 16); [reflexivity | lia].
  - intros H. unfold mask_key_value, Py.len.
    destruct (Z.ltb_spec (Z.of_nat (String.length value)) 16); [lia|].
    rewrite slice_prefix by lia.
    rewrite (slice_suffix 4) by lia.
    set (n := String.length value) in *.
    exists (Py.take 4 value),
           (Py.take (n - 8) (Py.drop 4 value)),
           (Py.drop (n - 4) value).
    repeat split.
    + rewrite <- (take_drop 4 value) at 1. f_equal.
      rewrite <- (take_drop (n - 8) (Py.drop 4 value)) at 1. f_equal.
      replace (n - 4)%nat with (4 + (n - 8))%nat by lia.
      apply drop_drop.
    + rewrite length_take. fold n. lia.
    + rewrite length_drop. fold n. lia.
Qed.

Lemma mask_key_value_spec_witness :
  mask_key_value "phx_abcdEFG" = "********" ∧
  ∃ first middle last : string,
    "phx_0123456789abcdefWXYZ" = first +:+ middle +:+ last ∧
    String.length first = 4%nat ∧ String.length last = 4%nat ∧
    mask_key_value "phx_0123456789abcdefWXYZ" = first +:+ "..." +:+ last.
Proof.
  split.
  - apply (proj1 (mask_key_value_spec "phx_abcdEFG")). simpl. lia.
  - apply (proj1 (proj2 (mask_key_value_spec "phx_0123456789abcdefWXYZ"))).
    simpl. lia.
Defined.

(** C1 as stated fails on its own example: "phx_abcdEFGH" has 12
    characters, fewer than 16, and is masked whole. *)
Lemma mask_key_value_12_characters :
  mask_key_value "phx_abcdEFGH" ≠ "phx_...EFGH".
Proof. discriminate. Qed.

(** ** int_to_base *)

Lemma get_in_range (n : nat) (s : string) :
  (n < String.length s)%nat → ∃ c, String.get n s = Some c.
Proof.
  revert n. induction s as [|a s IH]; intros n H; simpl in H; [lia|].
  destruct n as [|n]; simpl; [eauto | apply IH; lia].
Qed.

Lemma getitem_in_range (s : string) (i : Z) :
  0 ≤ i < Py.len s → ∃ c, Py.getitem s i = Some c.
Proof.
  intros [H0 H1]. unfold Py.getitem.
  destruct (Z.ltb_spec i 0); [lia|].
  destruct (Z.leb_spec 0 i); [|lia].
  destruct (Z.ltb_spec i (Py.len s)); [|lia].
  simpl. apply get_in_range. unfold Py.len in H1. lia.
Qed.

Lemma alphabet_length (base : Z) :
  0 ≤ base ≤ 62 → Py.len (Py.slice None (Some base) BASE62) = base.
Proof.
  intros H. rewrite slice_prefix by lia. unfold Py.len.
  rewrite length_take.
  change (String.length BASE62) with 62%nat. lia.
Qed.

(** One more iteration of the loop, when [number] is not yet 0. *)
Lemma encode_loop_step (fuel : nat) (alphabet : string) (number : Z)
    (value : string) (c : ascii) :
  number ≠ 0 → Py.len alphabet ≠ 0 →
  Py.getitem alphabet (number mod Py.len alphabet) = Some c →
  encode_loop (S fuel) alphabet number value =
  encode_loop fuel alphabet (number / Py.len alphabet) (String c value).
Proof.
  intros Hn Ha Hc. simpl.
  destruct (Z.eqb_spec number 0); [contradiction|].
  destruct (Z.eqb_spec (Py.len alphabet) 0); [contradiction|].
  now rewrite Hc.
Qed.

Lemma encode_loop_done (fuel : nat) (alphabet value : string) :
  encode_loop fuel alphabet 0 value = Some (Return value).
Proof. destruct fuel; reflexivity. Qed.

(** With an alphabet of two symbols or more the loop ends: [number]
    shrinks at every iteration. *)
Lemma encode_loop_returns (alphabet : string) :
  2 ≤ Py.len alphabet →
  ∀ (fuel : nat) (number : Z) (value : string),
    0 ≤ number ≤ Z.of_nat fuel →
    ∃ s, encode_loop fuel alphabet number value = Some (Return s) ∧
         (number ≠ 0 ∨ value ≠ "" → s ≠ "").
Proof.
  intros Ha. induction fuel as [|fuel IH]; intros number value Hn.
  - assert (number = 0) as -> by lia.
    exists value. split; [reflexivity | intros [?|?]; congruence].
  - destruct (Z.eq_dec number 0) as [->|Hne].
    + exists value. split; [reflexivity | intros [?|?]; congruence].
    + destruct (getitem_in_range alphabet (number mod Py.len alphabet)) as [c Hc].
      { apply Z.mod_pos_bound. lia. }
      rewrite (encode_loop_step _ _ _ _ c) by (assumption || lia).
      destruct (IH (number / Py.len alphabet) (String c value)) as (s & Hs & Hnonempty).
      { split; [apply Z.div_pos; lia|].
        assert (number / Py.len alphabet < number) by (apply Z.div_lt; lia).
        lia. }
      exists s. split; [assumption|]. intros _. apply Hnonempty. right. discriminate.
Qed.

(** A run that has finished finishes the same way with more fuel. *)
Lemma encode_loop_more_fuel (alphabet : string) (fuel : nat) :
  ∀ (number : Z) (value : string) (r : result string) (fuel' : nat),
    encode_loop fuel alphabet number value = Some r →
    (fuel ≤ fuel')%nat →
    encode_loop fuel' alphabet number value = Some r.
Proof.
  induction fuel as [|fuel IH]; intros number value r fuel' Hrun Hle.
  - simpl in Hrun. destruct (Z.eqb_spec number 0) as [->|]; [|discriminate].
    now rewrite encode_loop_done.
  - destruct fuel' as [|fuel']; [lia|].
    simpl in *. destruct (number =? 0); [assumption|].
    destruct (Py.len alphabet =? 0); [assumption|].
    destruct (Py.getitem alphabet (number mod Py.len alphabet)); [|assumption].
    apply IH; [assumption | lia].
Qed.

(** With the one-symbol alphabet of base 1 the loop never ends:
    dividing by 1 leaves [number] as it is. *)
Lemma encode_loop_base_1 (fuel : nat) (number : Z) (value : string) :
  number ≠ 0 → encode_loop fuel "0" number value = None.
Proof.
  revert value. induction fuel as [|fuel IH]; intros value Hn; simpl.
  - destruct (Z.eqb_spec number 0); [contradiction | reflexivity].
  - destruct (Z.eqb_spec number 0); [contradiction|].
    change (Py.len "0") with 1. rewrite Z.mod_1_r, Z.div_1_r. simpl.
    now apply IH.
Qed.

Lemma int_to_base_nonneg (fuel : nat) (number base : Z) :
  base ≤ 62 → 0 ≤ number →
  int_to_base fuel number base =
  match encode_loop fuel (Py.slice None (Some base) BASE62) number "" with
  | Some (Return value) =>
      Some (Return (match value with EmptyString => "0" | _ => value end))
  | other => other
  end.
Proof.
  intros Hb Hn. destruct fuel; simpl;
    (destruct (Z.ltb_spec 62 base); [lia|]);
    (destruct (Z.ltb_spec number 0); [lia|]); reflexivity.
Qed.

Lemma int_to_base_neg (fuel : nat) (number base : Z) :
  base ≤ 62 → number < 0 →
  int_to_base (S fuel) number base =
  match int_to_base fuel (- number) base with
  | Some (Return s) => Some (Return ("-" +:+ s))
  | other => other
  end.
Proof.
  intros Hb Hn. simpl.
  destruct (Z.ltb_spec 62 base); [lia|].
  destruct (Z.ltb_spec number 0); [|lia]. reflexivity.
Qed.

Lemma int_to_base_nonneg_returns (number base : Z) :
  2 ≤ base ≤ 62 → 0 ≤ number →
  ∃ s, s ≠ "" ∧
    ∀ fuel, (Z.to_nat number ≤ fuel)%nat →
      int_to_base fuel number base = Some (Return s).
Proof.
  intros Hb Hn.
  pose proof (alphabet_length base ltac:(lia)) as Hlen.
  destruct (encode_loop_returns (Py.slice None (Some base) BASE62) ltac:(lia)
              (Z.to_nat number) number "" ltac:(lia)) as (v & Hv & Hne).
  exists (match v with EmptyString => "0" | _ => v end). split.
  - destruct v; discriminate.
  - intros fuel Hfuel. rewrite int_to_base_nonneg by lia.
    now rewrite (encode_loop_more_fuel _ _ _ _ _ fuel Hv Hfuel).
Qed.

Lemma alphabet_base_1 : Py.slice None (Some 1) BASE62 = "0".
Proof. reflexivity. Qed.

(** The alphabet is empty in base 0 and from base -62 down. *)
Lemma alphabet_empty (base : Z) :
  base = 0 ∨ base ≤ -62 → Py.slice None (Some base) BASE62 = "".
Proof.
  intros [->|H]; [reflexivity|].
  unfold Py.slice, Py.bound. change (Py.len BASE62) with 62.
  destruct (Z.ltb_spec base 0); [|lia].
  rewrite Z.max_l by lia. reflexivity.
Qed.

Lemma encode_loop_no_alphabet (fuel : nat) (number : Z) (value : string) :
  number ≠ 0 →
  ∃ msg, encode_loop (S fuel) "" number value =
         Some (Raise (Exc ZeroDivisionError msg)).
Proof.
  intros Hn. simpl. destruct (Z.eqb_spec number 0); [contradiction|]. eauto.
Qed.

(** C10: for a base from 2 to 62, [int_to_base] returns a non-empty
    string on every integer (any fuel from |number| + 1 on gives that
    same string). Outside that range nothing but [base > 62] is
    guarded: in base 1 the loop makes no progress on a non-zero number
    and never returns, and in base 0, as from base -62 down, the
    alphabet is empty and the division is by zero. *)
Theorem int_to_base_terminates (number base : Z) :
  (2 ≤ base ≤ 62 →
     ∃ s, s ≠ "" ∧
       ∀ fuel, (Z.to_nat (Z.abs number) + 1 ≤ fuel)%nat →
         int_to_base fuel number base = Some (Return s)) ∧
  (base = 1 → number ≠ 0 → ∀ fuel, int_to_base fuel number base = None) ∧
  (base = 0 ∨ base ≤ -62 → number ≠ 0 → ∀ fuel, (2 ≤ fuel)%nat →
     ∃ msg, int_to_base fuel number base = Some (Raise (Exc ZeroDivisionError msg))).
Proof.
  split; [|split].
  - intros Hb. destruct (Z.lt_ge_cases number 0) as [Hneg|Hpos].
    + destruct (int_to_base_nonneg_returns (- number) base Hb ltac:(lia))
        as (s & Hs & Hrun).
      exists ("-" +:+ s). split; [discriminate|].
      intros [|fuel] Hfuel; [lia|].
      rewrite int_to_base_neg by lia.
      rewrite Hrun by lia. reflexivity.
    + destruct (int_to_base_nonneg_returns number base Hb Hpos) as (s & Hs & Hrun).
      exists s. split; [assumption|]. intros fuel Hfuel. apply Hrun. lia.
  - intros -> Hn fuel. destruct (Z.lt_ge_cases number 0) as [Hneg|Hpos].
    + destruct fuel as [|fuel].
      * simpl. destruct (Z.ltb_spec number 0); [reflexivity | lia].
      * rewrite int_to_base_neg by lia.
        rewrite int_to_base_nonneg by lia.
        rewrite alphabet_base_1, encode_loop_base_1 by lia. reflexivity.
    + rewrite int_to_base_nonneg by lia.
      rewrite alphabet_base_1, encode_loop_base_1 by lia. reflexivity.
  - intros Hb Hn fuel Hfuel.
    assert (base ≤ 62) by lia.
    destruct fuel as [|[|fuel]]; [lia | lia |].
    destruct (Z.lt_ge_cases number 0) as [Hneg|Hpos].
    + rewrite int_to_base_neg by lia.
      rewrite int_to_base_nonneg by lia.
      rewrite alphabet_empty by assumption.
      destruct (encode_loop_no_alphabet fuel (- number) "" ltac:(lia)) as [msg ->].
      eauto.
    + rewrite int_to_base_nonneg by lia.
      rewrite alphabet_empty by assumption.
      destruct (encode_loop_no_alphabet (S fuel) number "" ltac:(lia)) as [msg ->].
      eauto.
Qed.

Lemma int_to_base_terminates_witness :
  (∃ s, s ≠ "" ∧ int_to_base 256 (-255) 16 = Some (Return s)) ∧
  int_to_base 50 7 1 = None ∧
  (∃ msg, int_to_base 2 7 0 = Some (Raise (Exc ZeroDivisionError msg))).
Proof.
  split; [|split].
  - destruct (proj1 (int_to_base_terminates (-255) 16)) as (s & Hs & Hrun); [lia|].
    exists s. split; [exact Hs | apply Hrun; simpl; lia].
  - apply (proj1 (proj2 (int_to_base_terminates 7 1))); [reflexivity | lia].
  - apply (proj2 (proj2 (int_to_base_terminates 7 0))); lia.
Defined.

(** ** The series counter *)

Lemma series_read_lookup (t : Z) (d : gmap Z Z) :
  series_read t d !! t = Some (counter t d).
Proof.
  unfold series_read, defaultdict_getitem, counter.
  destruct (d !! t) eqn:E; simpl; [assumption | apply lookup_insert_eq].
Qed.

Lemma series_evict_lookup (t s : Z) (d : gmap Z Z) :
  d !! t = Some s → series_evict t s d !! t = Some s.
Proof.
  intros H. unfold series_evict.
  destruct (10000 <? Z.of_nat (size d)); [apply lookup_insert_eq | assumption].
Qed.

Lemma defaultdict_getitem_tracked (t v : Z) (d : gmap Z Z) :
  d !! t = Some v → defaultdict_getitem t d = (v, d).
Proof. intros H. unfold defaultdict_getitem. now rewrite H. Qed.

(** [get_series] in one piece: it returns the counter it read and
    stores its successor modulo 65536, in the dictionary the eviction
    statement left. *)
Lemma get_series_eq (t : Z) (d : gmap Z Z) :
  get_series t d =
  (counter t d,
   <[t := (counter t d + 1) mod 65536]>
     (series_evict t (counter t d) (series_read t d))).
Proof.
  pose proof (series_read_lookup t d) as Hread.
  unfold get_series.
  assert (defaultdict_getitem t d = (counter t d, series_read t d)) as ->.
  { unfold series_read, counter, defaultdict_getitem. now destruct (d !! t). }
  rewrite (defaultdict_getitem_tracked t (counter t d))
    by now apply series_evict_lookup.
  rewrite (defaultdict_getitem_tracked t (counter t d + 1))
    by apply lookup_insert_eq.
  now rewrite insert_insert_eq.
Qed.

Lemma get_series_without_eviction_eq (t : Z) (d : gmap Z Z) :
  get_series_without_eviction t d =
  (counter t d, <[t := (counter t d + 1) mod 65536]> (series_read t d)).
Proof.
  pose proof (series_read_lookup t d) as Hread.
  unfold get_series_without_eviction.
  assert (defaultdict_getitem t d = (counter t d, series_read t d)) as ->.
  { unfold series_read, counter, defaultdict_getitem. now destruct (d !! t). }
  rewrite (defaultdict_getitem_tracked t (counter t d)) by assumption.
  rewrite (defaultdict_getitem_tracked t (counter t d + 1))
    by apply lookup_insert_eq.
  now rewrite insert_insert_eq.
Qed.

Lemma get_series_counter (t : Z) (d : gmap Z Z) :
  counter t (get_series t d).2 = (counter t d + 1) mod 65536.
Proof.
  rewrite get_series_eq. unfold counter at 1. simpl.
  now rewrite lookup_insert_eq.
Qed.

Lemma get_series_run_cons (t : Z) (ts : list Z) (d : gmap Z Z) :
  get_series_run (t :: ts) d =
  ((get_series t d).1 :: (get_series_run ts (get_series t d).2).1,
   (get_series_run ts (get_series t d).2).2).
Proof.
  simpl. destruct (get_series t d) as [s d1]. simpl.
  now destruct (get_series_run ts d1).
Qed.

(** [k] calls in a row for one timestamp count up from where its
    counter stands, as long as they stay below 65536. *)
Lemma get_series_run_counts (t : Z) (k : nat) :
  ∀ (d : gmap Z Z) (c : Z),
    counter t d = c mod 65536 → 0 ≤ c → c + Z.of_nat k ≤ 65536 →
    (get_series_run (replicate k t) d).1 = (λ i, c + Z.of_nat i) <$> seq 0 k ∧
    counter t (get_series_run (replicate k t) d).2 = (c + Z.of_nat k) mod 65536.
Proof.
  induction k as [|k IH]; intros d c Hc H0 Hk.
  - simpl. rewrite Z.add_0_r. auto.
  - cbn [replicate]. rewrite get_series_run_cons. cbn [fst snd].
    destruct (IH (get_series t d).2 (c + 1)) as [Hrun Hlast]; [|lia|lia|].
    { rewrite get_series_counter, Hc. now rewrite Zplus_mod_idemp_l. }
    split.
    + rewrite Hrun. cbn [seq fmap list_fmap]. f_equal.
      * rewrite get_series_eq. cbn [fst]. rewrite Hc, Z.mod_small; lia.
      * rewrite <- seq_shift, <- list_fmap_compose.
        apply list_fmap_ext. intros _ i _. simpl. lia.
    + rewrite Hlast. f_equal. lia.
Qed.

(** X25: from a dictionary that does not track [t], [k ≤ 65536] calls
    of [get_series] in a row for [t], any integer, return 0, 1, ...,
    k-1 in that order, without repeats, and the call after 65536 of
    them returns 0 again. *)
Theorem get_series_consecutive (t : Z) (d : gmap Z Z) (k : nat) :
  d !! t = None → Z.of_nat k ≤ 65536 →
  (get_series_run (replicate k t) d).1 = Z.of_nat <$> seq 0 k ∧
  NoDup (get_series_run (replicate k t) d).1 ∧
  (get_series t (get_series_run (replicate (Z.to_nat 65536) t) d).2).1 = 0.
Proof.
  intros Ht Hk.
  assert (counter t d = 0 mod 65536) as Hc by (unfold counter; now rewrite Ht).
  destruct (get_series_run_counts t k d 0 Hc ltac:(lia) ltac:(lia)) as [Hrun _].
  assert ((get_series_run (replicate k t) d).1 = Z.of_nat <$> seq 0 k) as Hvalues.
  { rewrite Hrun. apply list_fmap_ext. intros _ i _. lia. }
  split; [assumption|]. split.
  - rewrite Hvalues. apply NoDup_fmap; [apply _ | apply NoDup_seq].
  - destruct (get_series_run_counts t (Z.to_nat 65536) d 0 Hc ltac:(lia) ltac:(lia))
      as [_ Hlast].
    rewrite get_series_eq. cbn [fst]. rewrite Hlast.
    rewrite Z2Nat.id by lia. reflexivity.
Qed.

Lemma get_series_consecutive_witness :
  (get_series_run (replicate 3 1700000000000) ∅).1 = Z.of_nat <$> seq 0 3 ∧
  NoDup (get_series_run (replicate 3 1700000000000) ∅).1 ∧
  (get_series 1700000000000
     (get_series_run (replicate (Z.to_nat 65536) 1700000000000) ∅).2).1 = 0.
Proof.
  apply (get_series_consecutive 1700000000000 ∅ 3).
  - apply lookup_empty.
  - lia.
Defined.

(** ** Eviction *)

Lemma series_read_size (t : Z) (d : gmap Z Z) :
  (size (series_read t d) ≤ S (size d))%nat.
Proof.
  unfold series_read, defaultdict_getitem.
  destruct (d !! t) eqn:E; simpl; [lia|].
  rewrite map_size_insert_None by assumption. lia.
Qed.

(** Whatever the dictionary was, [get_series] leaves at most 10000
    entries. *)
Lemma get_series_size (t : Z) (d : gmap Z Z) :
  Z.of_nat (size (get_series t d).2) ≤ 10000.
Proof.
  rewrite get_series_eq. cbn [snd]. unfold series_evict.
  destruct (Z.ltb_spec 10000 (Z.of_nat (size (series_read t d)))) as [H|H].
  - rewrite insert_insert_eq, insert_empty, map_size_singleton. lia.
  - rewrite map_size_insert_Some; [lia|].
    rewrite series_read_lookup. eauto.
Qed.

Lemma reachable_size (d : gmap Z Z) :
  reachable d → Z.of_nat (size d) ≤ 10000.
Proof.
  intros [|t d' _]; [rewrite map_size_empty; lia | apply get_series_size].
Qed.

Lemma reachable_run (ts : list Z) :
  ∀ d, reachable d → reachable (get_series_run ts d).2.
Proof.
  induction ts as [|t ts IH]; intros d Hd; [assumption|].
  rewrite get_series_run_cons. cbn [snd]. apply IH. now constructor.
Qed.

(** C7: when the dictionary, the entry of the timestamp being minted
    counted in, holds more than 10000 entries, [get_series] leaves
    exactly one entry, that of the timestamp, and returns and stores
    what it would have without the eviction; and a dictionary that
    started empty never holds more than 10001 entries, neither
    between two calls nor inside one. *)
Theorem get_series_eviction (t : Z) (d : gmap Z Z) :
  (10000 < Z.of_nat (size (series_read t d)) →
     (get_series t d).2 = {[ t := ((get_series t d).1 + 1) mod 65536 ]} ∧
     size (get_series t d).2 = 1%nat ∧
     (get_series t d).1 = (get_series_without_eviction t d).1 ∧
     (get_series t d).2 !! t = (get_series_without_eviction t d).2 !! t) ∧
  (reachable d →
     Z.of_nat (size d) ≤ 10001 ∧
     Z.of_nat (size (series_read t d)) ≤ 10001 ∧
     Z.of_nat (size (get_series t d).2) ≤ 10001).
Proof.
  split.
  - intros Hfull.
    assert ((get_series t d).2 = {[ t := ((get_series t d).1 + 1) mod 65536 ]}) as Hpost.
    { rewrite get_series_eq. cbn [fst snd]. unfold series_evict.
      destruct (Z.ltb_spec 10000 (Z.of_nat (size (series_read t d)))); [|lia].
      now rewrite insert_insert_eq, insert_empty. }
    split; [exact Hpost|]. split; [rewrite Hpost; apply map_size_singleton|].
    rewrite get_series_eq, get_series_without_eviction_eq. cbn [fst snd].
    split; [reflexivity|]. now rewrite !lookup_insert_eq.
  - intros Hd. pose proof (reachable_size d Hd).
    pose proof (series_read_size t d). pose proof (get_series_size t d). lia.
Qed.

Lemma get_series_run_app (ts1 ts2 : list Z) :
  ∀ d, (get_series_run (ts1 ++ ts2) d).2 =
       (get_series_run ts2 (get_series_run ts1 d).2).2.
Proof.
  induction ts1 as [|t ts1 IH]; intros d; [reflexivity|].
  rewrite <- app_comm_cons, !get_series_run_cons. cbn [snd]. apply IH.
Qed.

(** One call for each of the timestamps 0, ..., n-1, for n up to
    10000, tracks exactly these, with no eviction on the way. *)
Lemma get_series_run_fresh (n : nat) :
  Z.of_nat n ≤ 10000 →
  size (get_series_run (Z.of_nat <$> seq 0 n) ∅).2 = n ∧
  ∀ t, Z.of_nat n ≤ t → (get_series_run (Z.of_nat <$> seq 0 n) ∅).2 !! t = None.
Proof.
  induction n as [|n IH]; intros Hn.
  - split; [apply map_size_empty | intros; apply lookup_empty].
  - destruct IH as [Hsize Hfresh]; [lia|].
    rewrite seq_S, fmap_app, get_series_run_app. cbn [fmap list_fmap].
    set (d := (get_series_run (Z.of_nat <$> seq 0 n) ∅).2) in *.
    rewrite get_series_run_cons. cbn [get_series_run snd].
    rewrite Nat.add_0_l, get_series_eq. cbn [snd].
    assert (d !! Z.of_nat n = None) as Hnone by (apply Hfresh; lia).
    assert (series_read (Z.of_nat n) d = <[Z.of_nat n := 0]> d) as Hread.
    { unfold series_read, defaultdict_getitem. now rewrite Hnone. }
    unfold series_evict. rewrite Hread.
    rewrite (map_size_insert_None _ _ _ Hnone), Hsize.
    destruct (Z.ltb_spec 10000 (Z.of_nat (S n))); [lia|].
    rewrite insert_insert_eq. split.
    + rewrite (map_size_insert_None _ _ _ Hnone). now rewrite Hsize.
    + intros t Ht. rewrite lookup_insert_ne by lia. apply Hfresh. lia.
Qed.

(** The next new timestamp makes [full_dictionary] overflow. *)
Lemma full_dictionary_overflows :
  10000 < Z.of_nat (size (series_read 10000 full_dictionary)).
Proof.
  destruct (get_series_run_fresh (Z.to_nat 10000)) as [Hsize Hfresh]; [lia|].
  fold full_dictionary in Hsize, Hfresh.
  unfold series_read, defaultdict_getitem.
  rewrite Hfresh by lia. cbn [snd].
  rewrite map_size_insert_None, Hsize by (apply Hfresh; lia). lia.
Qed.

Lemma get_series_eviction_witness :
  ((get_series 10000 full_dictionary).2 =
     {[ 10000 := ((get_series 10000 full_dictionary).1 + 1) mod 65536 ]} ∧
   size (get_series 10000 full_dictionary).2 = 1%nat ∧
   (get_series 10000 full_dictionary).1 =
     (get_series_without_eviction 10000 full_dictionary).1 ∧
   (get_series 10000 full_dictionary).2 !! 10000 =
     (get_series_without_eviction 10000 full_dictionary).2 !! 10000) ∧
  (Z.of_nat (size full_dictionary) ≤ 10001 ∧
   Z.of_nat (size (series_read 10000 full_dictionary)) ≤ 10001 ∧
   Z.of_nat (size (get_series 10000 full_dictionary).2) ≤ 10001).
Proof.
  split.
  - apply (proj1 (get_series_eviction 10000 full_dictionary)).
    exact full_dictionary_overflows.
  - apply (proj2 (get_series_eviction 10000 full_dictionary)).
    apply reachable_run. constructor.
Defined.

(** ** Bytes *)

Lemma Z_of_byte_range (b : byte) : 0 ≤ Py.Z_of_byte b < 256.
Proof.
  unfold Py.Z_of_byte. pose proof (Byte.to_N_bounded b). lia.
Qed.

Lemma Z_of_byte_of_Z (z : Z) : Py.Z_of_byte (Py.byte_of_Z z) = z mod 256.
Proof.
  unfold Py.Z_of_byte, Py.byte_of_Z.
  pose proof (Z.mod_pos_bound z 256 ltac:(lia)) as Hz.
  destruct (Byte.of_N (Z.to_N (z mod 256))) as [b|] eqn:E.
  - apply Byte.to_of_N in E. rewrite E. lia.
  - apply Byte.of_N_None_iff in E. lia.
Qed.

Lemma from_bytes_big_acc (b : list byte) :
  ∀ acc,
    fold_left (λ acc x, acc * 256 + Py.Z_of_byte x) b acc =
    acc * 256 ^ Z.of_nat (length b) + Py.from_bytes_big b.
Proof.
  unfold Py.from_bytes_big.
  induction b as [|x b IH]; intros acc.
  - simpl. lia.
  - cbn [fold_left length]. rewrite IH, (IH (0 * 256 + _)).
    rewrite Nat2Z.inj_succ, Z.pow_succ_r by lia. lia.
Qed.

Lemma from_bytes_big_app (a b : list byte) :
  Py.from_bytes_big (a ++ b) =
  Py.from_bytes_big a * 256 ^ Z.of_nat (length b) + Py.from_bytes_big b.
Proof.
  unfold Py.from_bytes_big at 1. rewrite fold_left_app.
  apply from_bytes_big_acc.
Qed.

Lemma from_bytes_big_range (b : list byte) :
  0 ≤ Py.from_bytes_big b < 256 ^ Z.of_nat (length b).
Proof.
  induction b as [|x b IH] using rev_ind.
  - simpl. unfold Py.from_bytes_big. simpl. lia.
  - rewrite from_bytes_big_app, length_app. cbn [length].
    change (Py.from_bytes_big [x]) with (0 * 256 + Py.Z_of_byte x).
    pose proof (Z_of_byte_range x).
    replace (Z.of_nat (length b + 1)) with (Z.succ (Z.of_nat (length b))) by lia.
    rewrite Z.pow_succ_r by lia. change (256 ^ Z.of_nat 1) with 256. nia.
Qed.

Lemma big_endian_length (n : nat) : ∀ x, length (Py.big_endian n x) = n.
Proof.
  induction n as [|n IH]; intros x; [reflexivity|].
  cbn [Py.big_endian]. rewrite length_app, IH. simpl. lia.
Qed.

Lemma from_bytes_big_endian (n : nat) :
  ∀ x, Py.from_bytes_big (Py.big_endian n x) = x mod 256 ^ Z.of_nat n.
Proof.
  induction n as [|n IH]; intros x.
  - simpl. now rewrite Z.mod_1_r.
  - cbn [Py.big_endian]. rewrite from_bytes_big_app, IH.
    change (Py.from_bytes_big [Py.byte_of_Z x])
      with (0 * 256 + Py.Z_of_byte (Py.byte_of_Z x)).
    rewrite Z_of_byte_of_Z.
    rewrite Nat2Z.inj_succ, Z.pow_succ_r by lia.
    change (256 ^ Z.of_nat (length [Py.byte_of_Z x])) with 256.
    rewrite (Z.rem_mul_r x 256 (256 ^ Z.of_nat n)) by lia. lia.
Qed.

Lemma to_bytes_in_range (x : Z) (n : nat) :
  0 ≤ x < 256 ^ Z.of_nat n →
  ∃ b, Py.to_bytes x n = Return b ∧ length b = n ∧ Py.from_bytes_big b = x.
Proof.
  intros Hx. exists (Py.big_endian n x). unfold Py.to_bytes.
  destruct (Z.leb_spec 0 x); [|lia].
  destruct (Z.ltb_spec x (256 ^ Z.of_nat n)); [|lia].
  split; [reflexivity|]. split; [apply big_endian_length|].
  rewrite from_bytes_big_endian. apply Z.mod_small. lia.
Qed.

Lemma random_bytes_length (n : nat) :
  ∀ r, length (random_bytes n r).1 = n.
Proof.
  induction n as [|n IH]; intros r; [reflexivity|].
  cbn [random_bytes]. unfold getrandbits.
  specialize (IH (advance r)). destruct (random_bytes n (advance r)).
  simpl in *. now rewrite IH.
Qed.

(** ** UUIDT *)

Lemma counter_insert_eq (t v : Z) (d : gmap Z Z) : counter t (<[t := v]> d) = v.
Proof. unfold counter. now rewrite lookup_insert_eq. Qed.

Lemma counter_insert_ne (t t' v : Z) (d : gmap Z Z) :
  t' ≠ t → counter t (<[t' := v]> d) = counter t d.
Proof. intros H. unfold counter. now rewrite lookup_insert_ne. Qed.

Lemma counter_empty (t : Z) : counter t ∅ = 0.
Proof. unfold counter. now rewrite lookup_empty. Qed.

(** Every counter a process holds is a 16-bit value. *)
Lemma reachable_counter_range (d : gmap Z Z) :
  reachable d → ∀ t, 0 ≤ counter t d < 65536.
Proof.
  induction 1 as [|t' d _ IH]; intros t.
  - rewrite counter_empty. lia.
  - rewrite get_series_eq. cbn [snd].
    destruct (decide (t' = t)) as [->|Hne].
    + rewrite counter_insert_eq. apply Z.mod_pos_bound. lia.
    + rewrite counter_insert_ne by assumption. unfold series_evict.
      destruct (10000 <? Z.of_nat (size (series_read t' d))).
      * rewrite counter_insert_ne, counter_empty by assumption. lia.
      * unfold series_read, defaultdict_getitem.
        destruct (d !! t') eqn:E; cbn [snd].
        -- apply IH.
        -- rewrite counter_insert_ne by assumption. apply IH.
Qed.

(** What [UUIDT_mint] builds: the timestamp in the high 48 bits, the
    counter it read in the next 16, and 64 random bits. *)
Lemma UUIDT_mint_layout (unix_time_ms : option Z) (seeded_random : option Random)
    (w : world) :
  let t := mint_time unix_time_ms w in
  let d := current_series_per_ms w in
  0 ≤ t < 2 ^ 48 → 0 ≤ counter t d < 65536 →
  ∃ rnd w' seeded_random',
    0 ≤ rnd < 2 ^ 64 ∧
    UUIDT_mint unix_time_ms seeded_random w =
      (Return (t * 2 ^ 80 + counter t d * 2 ^ 64 + rnd), w', seeded_random') ∧
    current_series_per_ms w' = (get_series t d).2.
Proof.
  intros t d Ht Hc. unfold UUIDT_mint. fold t. fold d.
  destruct (to_bytes_in_range t 6 Ht) as (tc & -> & Htc_len & Htc).
  rewrite get_series_eq.
  destruct (to_bytes_in_range (counter t d) 2 Hc) as (sc & -> & Hsc_len & Hsc).
  set (d' := <[t:=(counter t d + 1) mod 65536]> _).
  assert (∀ rc : list byte, length rc = 8%nat →
            UUID_of_bytes (tc ++ sc ++ rc) =
            Return (t * 2 ^ 80 + counter t d * 2 ^ 64 + Py.from_bytes_big rc) ∧
            0 ≤ Py.from_bytes_big rc < 2 ^ 64) as Hvalue.
  { intros rc Hrc. pose proof (from_bytes_big_range rc) as Hrange.
    rewrite Hrc in Hrange. change (256 ^ Z.of_nat 8) with (2 ^ 64) in Hrange.
    split; [|assumption].
    unfold UUID_of_bytes. rewrite !length_app, Htc_len, Hsc_len, Hrc. simpl negb.
    cbv iota. rewrite !from_bytes_big_app, !length_app, Htc, Hsc, Hsc_len, Hrc.
    change (256 ^ Z.of_nat (2 + 8)) with (2 ^ 80).
    change (256 ^ Z.of_nat 8) with (2 ^ 64).
    unfold UUID_of_int.
    destruct (Z.leb_spec 0 (t * 2 ^ 80 + (counter t d * 2 ^ 64 + Py.from_bytes_big rc)));
      [|lia].
    destruct (Z.ltb_spec (t * 2 ^ 80 + (counter t d * 2 ^ 64 + Py.from_bytes_big rc))
                (2 ^ 128)); [|lia].
    simpl. f_equal. lia. }
  destruct seeded_random as [r|].
  - pose proof (random_bytes_length 8 r) as Hlen.
    destruct (random_bytes 8 r) as [rc r'] eqn:E. cbn [fst] in Hlen.
    destruct (Hvalue rc Hlen) as [-> Hrange].
    exists (Py.from_bytes_big rc), (set_series d' w), (Some r'). auto.
  - unfold token_bytes.
    pose proof (random_bytes_length 8 (secrets (set_series d' w))) as Hlen.
    destruct (random_bytes 8 (secrets (set_series d' w))) as [rc r'] eqn:E.
    cbn [fst] in Hlen. destruct (Hvalue rc Hlen) as [-> Hrange].
    exists (Py.from_bytes_big rc), (set_secrets r' (set_series d' w)), None. auto.
Qed.

Lemma UUIDT_timestamp_layout (t s rnd : Z) :
  0 ≤ s < 65536 → 0 ≤ rnd < 2 ^ 64 →
  UUIDT_timestamp (t * 2 ^ 80 + s * 2 ^ 64 + rnd) = t.
Proof.
  intros Hs Hr. unfold UUIDT_timestamp. rewrite Z.shiftr_div_pow2 by lia.
  symmetry. apply (Z.div_unique _ _ t (s * 2 ^ 64 + rnd)); lia.
Qed.

Section UUIDT_properties.

Variable int16 : string → option Z.

Lemma UUIDT_init_no_string (unix_time_ms : option Z) (seeded_random : option Random)
    (w : world) :
  UUIDT_init int16 unix_time_ms None seeded_random w =
  UUIDT_mint unix_time_ms seeded_random w.
Proof. reflexivity. Qed.

(** C6: of two identifiers minted by one process, with timestamps
    [t_a < t_b] that both fit in 48 bits, the first has the smaller
    128-bit value, whatever their series and random parts. *)
Theorem UUIDT_sorts_by_timestamp (unix_a unix_b : option Z)
    (random_a random_b : option Random) (w_a w_b : world) :
  reachable (current_series_per_ms w_a) →
  reachable (current_series_per_ms w_b) →
  0 ≤ mint_time unix_a w_a →
  mint_time unix_a w_a < mint_time unix_b w_b →
  mint_time unix_b w_b < 2 ^ 48 →
  ∃ u_a u_b,
    (UUIDT_init int16 unix_a None random_a w_a).1.1 = Return u_a ∧
    (UUIDT_init int16 unix_b None random_b w_b).1.1 = Return u_b ∧
    UUIDT_timestamp u_a = mint_time unix_a w_a ∧
    UUIDT_timestamp u_b = mint_time unix_b w_b ∧
    u_a < u_b.
Proof.
  intros Ha Hb H0 Hlt H48. rewrite !UUIDT_init_no_string.
  pose proof (reachable_counter_range _ Ha (mint_time unix_a w_a)) as Hca.
  pose proof (reachable_counter_range _ Hb (mint_time unix_b w_b)) as Hcb.
  destruct (UUIDT_mint_layout unix_a random_a w_a ltac:(lia) Hca)
    as (ra & wa' & sa' & Hra & -> & _).
  destruct (UUIDT_mint_layout unix_b random_b w_b ltac:(lia) Hcb)
    as (rb & wb' & sb' & Hrb & -> & _).
  cbn [fst]. eexists _, _. split; [reflexivity|]. split; [reflexivity|].
  rewrite !UUIDT_timestamp_layout by assumption.
  split; [reflexivity|]. split; [reflexivity|].
  set (ta := mint_time unix_a w_a) in *. set (tb := mint_time unix_b w_b) in *.
  set (ca := counter ta _) in *. set (cb := counter tb _) in *.
  change (2 ^ 80) with (65536 * 2 ^ 64).
  assert (0 < 2 ^ 64) by lia. nia.
Qed.

End UUIDT_properties.

Lemma UUIDT_sorts_by_timestamp_witness :
  ∃ u_a u_b,
    (UUIDT_init int16_ascii (Some 1699999999999) None None fresh_world).1.1
      = Return u_a ∧
    (UUIDT_init int16_ascii None None (Some counting) fresh_world).1.1
      = Return u_b ∧
    UUIDT_timestamp u_a = 1699999999999 ∧
    UUIDT_timestamp u_b = 1700000000000 ∧
    u_a < u_b.
Proof.
  apply (UUIDT_sorts_by_timestamp int16_ascii (Some 1699999999999) None
           None (Some counting) fresh_world fresh_world).
  - constructor.
  - constructor.
  - simpl. lia.
  - simpl. lia.
  - simpl. lia.
Defined.

Lemma UUIDT_series_layout (t s rnd : Z) :
  0 ≤ s < 65536 → 0 ≤ rnd < 2 ^ 64 →
  UUIDT_series (t * 2 ^ 80 + s * 2 ^ 64 + rnd) = s.
Proof.
  intros Hs Hr. unfold UUIDT_series. rewrite Z.shiftr_div_pow2 by lia.
  change 65535 with (Z.ones 16). rewrite Z.land_ones by lia.
  assert ((t * 2 ^ 80 + s * 2 ^ 64 + rnd) / 2 ^ 64 = t * 2 ^ 16 + s) as ->.
  { symmetry. apply (Z.div_unique _ _ _ rnd); [lia|].
    change (2 ^ 80) with (2 ^ 16 * 2 ^ 64). lia. }
  rewrite Z.add_comm, Z_mod_plus_full. apply Z.mod_small. lia.
Qed.

Section UUIDT_strings.

Variable int16 : string → option Z.

(** C2, as the code has it: a string that [is_valid_uuid] turns down
    (its undecorated form is not 32 characters long, or is a literal
    of a value outside 0 .. 2^128 - 1) is ignored, and the constructor
    mints a fresh identifier as if no string had been given; from a
    process's own dictionary and a 48-bit timestamp that identifier is
    returned, carries the counter read, and the counter is advanced.
    Only 32 characters that [int(_, 16)] rejects raise [ValueError]. *)
Theorem UUIDT_init_invalid_string (uuid_str : string) (unix_time_ms : option Z)
    (seeded_random : option Random) (w : world) :
  (Py.len (undecorate uuid_str) ≠ 32 ∨
   (∃ n, int16 (undecorate uuid_str) = Some n ∧ ¬ (0 ≤ n < 2 ^ 128)) →
   UUIDT_init int16 unix_time_ms (Some uuid_str) seeded_random w =
   UUIDT_mint unix_time_ms seeded_random w) ∧
  (Py.len (undecorate uuid_str) = 32 → int16 (undecorate uuid_str) = None →
   ∃ msg, UUIDT_init int16 unix_time_ms (Some uuid_str) seeded_random w =
          (Raise (Exc ValueError msg), w, seeded_random)) ∧
  (reachable (current_series_per_ms w) → 0 ≤ mint_time unix_time_ms w < 2 ^ 48 →
   ∃ u w' seeded_random',
     UUIDT_mint unix_time_ms seeded_random w = (Return u, w', seeded_random') ∧
     UUIDT_timestamp u = mint_time unix_time_ms w ∧
     UUIDT_series u =
       counter (mint_time unix_time_ms w) (current_series_per_ms w) ∧
     counter (mint_time unix_time_ms w) (current_series_per_ms w') =
       (counter (mint_time unix_time_ms w) (current_series_per_ms w) + 1) mod 65536).
Proof.
  split; [|split].
  - intros Hbad. unfold UUIDT_init.
    destruct uuid_str as [|c s]; [reflexivity|]. cbn [truthy].
    set (str := String c s) in *. unfold is_valid_uuid, int_hex.
    destruct Hbad as [Hlen|(n & Hn & Hrange)].
    + destruct (Z.eqb_spec (Py.len (undecorate str)) 32); [contradiction|].
      reflexivity.
    + rewrite Hn. destruct (Py.len (undecorate str) =? 32); [|reflexivity].
      cbn [negb bind].
      destruct (Z.leb_spec 0 n), (Z.ltb_spec n (2 ^ 128)); try reflexivity. lia.
  - intros Hlen Hnone. unfold UUIDT_init.
    destruct uuid_str as [|c s]; [discriminate Hlen|]. cbn [truthy].
    unfold is_valid_uuid, int_hex. rewrite Hlen, Hnone. cbn. eauto.
  - intros Hd Ht.
    pose proof (reachable_counter_range _ Hd (mint_time unix_time_ms w)) as Hc.
    destruct (UUIDT_mint_layout unix_time_ms seeded_random w Ht Hc)
      as (rnd & w' & sr' & Hrnd & Hmint & Hw').
    eexists _, w', sr'. split; [exact Hmint|].
    rewrite UUIDT_timestamp_layout, UUIDT_series_layout by assumption.
    split; [reflexivity|]. split; [reflexivity|].
    rewrite Hw'. apply get_series_counter.
Qed.

End UUIDT_strings.

Lemma UUIDT_init_invalid_string_witness :
  UUIDT_init int16_ascii (Some 1700000000000) (Some "not-a-uuid") None fresh_world =
    UUIDT_mint (Some 1700000000000) None fresh_world ∧
  (∃ msg, UUIDT_init int16_ascii (Some 1700000000000)
            (Some "zzzzzzzz-zzzz-zzzz-zzzz-zzzzzzzzzzzz") None fresh_world =
          (Raise (Exc ValueError msg), fresh_world, None)) ∧
  (∃ u w' seeded_random',
     UUIDT_mint (Some 1700000000000) None fresh_world = (Return u, w', seeded_random') ∧
     UUIDT_timestamp u = 1700000000000 ∧
     UUIDT_series u = counter 1700000000000 ∅ ∧
     counter 1700000000000 (current_series_per_ms w') =
       (counter 1700000000000 ∅ + 1) mod 65536).
Proof.
  split; [|split].
  - apply (proj1 (UUIDT_init_invalid_string int16_ascii "not-a-uuid"
                    (Some 1700000000000) None fresh_world)).
    left. vm_compute. discriminate.
  - apply (proj1 (proj2 (UUIDT_init_invalid_string int16_ascii
                           "zzzzzzzz-zzzz-zzzz-zzzz-zzzzzzzzzzzz"
                           (Some 1700000000000) None fresh_world))).
    + vm_compute. reflexivity.
    + vm_compute. reflexivity.
  - apply (proj2 (proj2 (UUIDT_init_invalid_string int16_ascii "not-a-uuid"
                           (Some 1700000000000) None fresh_world))).
    + constructor.
    + simpl. lia.
Defined.

(** C2 as stated fails on "not-a-uuid": the constructor returns an
    identifier minted at the given timestamp and advances the counter. *)
Lemma UUIDT_init_mints_on_invalid_string :
  is_valid_uuid int16_ascii "not-a-uuid" = Return false ∧
  (UUIDT_init int16_ascii (Some 1700000000000) (Some "not-a-uuid") None
     fresh_world).1.1
    = Return (1700000000000 * 2 ^ 80 + 0 * 2 ^ 64 + 0x0001020304050607) ∧
  counter 1700000000000
    (current_series_per_ms
       (UUIDT_init int16_ascii (Some 1700000000000) (Some "not-a-uuid") None
          fresh_world).1.2) = 1.
Proof. vm_compute. auto. Qed.

(** ** uuid7 *)

Lemma testbit_below_pow2 (y n i : Z) :
  0 ≤ y < 2 ^ n → n ≤ i → Z.testbit y i = false.
Proof.
  intros Hy Hi. destruct (Z.lt_ge_cases n 0) as [Hn|Hn].
  - rewrite Z.pow_neg_r in Hy by assumption. lia.
  - rewrite <- (Z.mod_small y (2 ^ n)) by assumption.
    apply Z.mod_pow2_bits_high. lia.
Qed.

(** [|] adds a field that lies below the bits set so far. *)
Lemma lor_below (k y n : Z) :
  0 ≤ n → 0 ≤ y < 2 ^ n → Z.lor (k * 2 ^ n) y = k * 2 ^ n + y.
Proof.
  intros Hn Hy.
  assert (Z.land (k * 2 ^ n) y = 0) as Hdisjoint.
  { apply Z.bits_inj'. intros i Hi. rewrite Z.land_spec, Z.bits_0.
    destruct (Z.lt_ge_cases i n).
    - rewrite Z.mul_pow2_bits_low by lia. reflexivity.
    - rewrite (testbit_below_pow2 y n i) by lia. apply andb_false_r. }
  rewrite Z.add_nocarry_lxor by assumption. symmetry. now apply Z.lxor_lor.
Qed.

(** The construction of the UUID int, as a sum of its fields. *)
Lemma uuid7_int_sum (t a b : Z) :
  0 ≤ a < 2 ^ 12 → 0 ≤ b < 2 ^ 62 →
  uuid7_int t a b =
  (t mod 2 ^ 48) * 2 ^ 80 + 7 * 2 ^ 76 + a * 2 ^ 64 + 2 * 2 ^ 62 + b.
Proof.
  intros Ha Hb. unfold uuid7_int. cbv zeta.
  change 0x0FFFFFFFFFFFF with (Z.ones 48). rewrite Z.land_ones by lia.
  rewrite !Z.shiftl_mul_pow2 by lia.
  set (T := t mod 2 ^ 48).
  rewrite (lor_below T (7 * 2 ^ 76) 80) by lia.
  replace (T * 2 ^ 80 + 7 * 2 ^ 76) with ((T * 16 + 7) * 2 ^ 76)
    by (change (2 ^ 80) with (16 * 2 ^ 76); lia).
  rewrite (lor_below _ (a * 2 ^ 64) 76) by lia.
  replace ((T * 16 + 7) * 2 ^ 76 + a * 2 ^ 64)
    with (((T * 16 + 7) * 2 ^ 12 + a) * 2 ^ 64)
    by (change (2 ^ 76) with (2 ^ 12 * 2 ^ 64); lia).
  rewrite (lor_below _ (2 * 2 ^ 62) 64) by lia.
  replace (((T * 16 + 7) * 2 ^ 12 + a) * 2 ^ 64 + 2 * 2 ^ 62)
    with ((((T * 16 + 7) * 2 ^ 12 + a) * 4 + 2) * 2 ^ 62)
    by (change (2 ^ 64) with (4 * 2 ^ 62); lia).
  rewrite (lor_below _ b 62) by lia.
  change (2 ^ 80) with (16 * 2 ^ 12 * 4 * 2 ^ 62).
  change (2 ^ 76) with (2 ^ 12 * 4 * 2 ^ 62).
  change (2 ^ 64) with (4 * 2 ^ 62). lia.
Qed.

(** The fields read back from the sum. *)
Lemma uuid7_fields (T a b : Z) :
  0 ≤ T < 2 ^ 48 → 0 ≤ a < 2 ^ 12 → 0 ≤ b < 2 ^ 62 →
  let u := T * 2 ^ 80 + 7 * 2 ^ 76 + a * 2 ^ 64 + 2 * 2 ^ 62 + b in
  0 ≤ u < 2 ^ 128 ∧
  uuid7_timestamp u = T ∧ uuid7_version u = 7 ∧ uuid7_rand_a u = a ∧
  uuid7_variant u = 2 ∧ uuid7_rand_b u = b.
Proof.
  intros HT Ha Hb u.
  unfold uuid7_timestamp, uuid7_version, uuid7_rand_a, uuid7_variant, uuid7_rand_b.
  change 15 with (Z.ones 4). change 0xFFF with (Z.ones 12).
  change 3 with (Z.ones 2). change (2 ^ 62 - 1) with (Z.ones 62).
  rewrite !Z.land_ones, !Z.shiftr_div_pow2 by lia.
  assert (u / 2 ^ 80 = T) as ->.
  { symmetry. apply (Z.div_unique _ _ _ (7 * 2 ^ 76 + a * 2 ^ 64 + 2 * 2 ^ 62 + b));
      unfold u; lia. }
  assert (u / 2 ^ 76 = T * 16 + 7) as ->.
  { symmetry. apply (Z.div_unique _ _ _ (a * 2 ^ 64 + 2 * 2 ^ 62 + b));
      unfold u; change (2 ^ 80) with (16 * 2 ^ 76); lia. }
  assert (u / 2 ^ 64 = (T * 16 + 7) * 2 ^ 12 + a) as ->.
  { symmetry. apply (Z.div_unique _ _ _ (2 * 2 ^ 62 + b)); unfold u;
      change (2 ^ 80) with (16 * 2 ^ 12 * 2 ^ 64);
      change (2 ^ 76) with (2 ^ 12 * 2 ^ 64); lia. }
  assert (u / 2 ^ 62 = ((T * 16 + 7) * 2 ^ 12 + a) * 4 + 2) as ->.
  { symmetry. apply (Z.div_unique _ _ _ b); unfold u;
      change (2 ^ 80) with (16 * 2 ^ 12 * 4 * 2 ^ 62);
      change (2 ^ 76) with (2 ^ 12 * 4 * 2 ^ 62);
      change (2 ^ 64) with (4 * 2 ^ 62); lia. }
  split; [unfold u; lia|]. split; [reflexivity|].
  split; [symmetry; apply (Z.mod_unique _ _ T); lia|].
  split; [symmetry; apply (Z.mod_unique _ _ (T * 16 + 7)); lia|].
  split; [symmetry; apply (Z.mod_unique _ _ ((T * 16 + 7) * 2 ^ 12 + a)); lia|].
  symmetry. apply (Z.mod_unique _ _ (((T * 16 + 7) * 2 ^ 12 + a) * 4 + 2));
    unfold u; [lia|].
  change (2 ^ 80) with (16 * 2 ^ 12 * 4 * 2 ^ 62).
  change (2 ^ 76) with (2 ^ 12 * 4 * 2 ^ 62).
  change (2 ^ 64) with (4 * 2 ^ 62). lia.
Qed.

Lemma land_ones_range (x n : Z) : 0 ≤ n → 0 ≤ Z.land x (Z.ones n) < 2 ^ n.
Proof. intros Hn. rewrite Z.land_ones by assumption. apply Z.mod_pos_bound. lia. Qed.

(** Whatever the source of randomness, [rand_a] has 12 bits and
    [rand_b] at most 62. *)
Lemma uuid7_random_range (random : random_arg) (w : world) :
  0 ≤ (uuid7_random random w).1.1.1 < 2 ^ 12 ∧
  0 ≤ (uuid7_random random w).1.1.2 < 2 ^ 62.
Proof.
  unfold uuid7_random.
  change 0x0FFF with (Z.ones 12). change 0x03FFFFFFFFFFFFFFF with (Z.ones 62).
  destruct random as [|seed|r].
  - unfold token_bytes. destruct (random_bytes 10 (secrets w)) as [bs s'].
    cbn [fst snd]. split; apply land_ones_range; lia.
  - cbn [fst snd]. split; apply land_ones_range; lia.
  - unfold getrandbits. cbn [fst snd].
    pose proof (Z.mod_pos_bound (tape r (cursor r)) (2 ^ 12) ltac:(lia)).
    pose proof (Z.mod_pos_bound (tape (advance r) (cursor (advance r))) (2 ^ 56)
                  ltac:(lia)).
    lia.
Qed.

Lemma UUID_of_int_in_range (n : Z) : 0 ≤ n < 2 ^ 128 → UUID_of_int n = Return n.
Proof.
  intros H. unfold UUID_of_int.
  destruct (Z.leb_spec 0 n); [|lia]. destruct (Z.ltb_spec n (2 ^ 128)); [|lia].
  reflexivity.
Qed.

Lemma version_bits (u : Z) :
  uuid7_version u = 7 →
  Z.testbit u 79 = false ∧ Z.testbit u 78 = true ∧
  Z.testbit u 77 = true ∧ Z.testbit u 76 = true.
Proof.
  unfold uuid7_version. intros H.
  assert (∀ i, 0 ≤ i → Z.testbit u (i + 76) && Z.testbit 15 i = Z.testbit 7 i) as Hbit.
  { intros i Hi. now rewrite <- H, Z.land_spec, Z.shiftr_spec. }
  pose proof (Hbit 3 ltac:(lia)) as H3. pose proof (Hbit 2 ltac:(lia)) as H2.
  pose proof (Hbit 1 ltac:(lia)) as H1. pose proof (Hbit 0 ltac:(lia)) as H0.
  cbn in H3, H2, H1, H0. rewrite andb_true_r in H3, H2, H1, H0. auto.
Qed.

Lemma variant_bits (u : Z) :
  uuid7_variant u = 2 → Z.testbit u 63 = true ∧ Z.testbit u 62 = false.
Proof.
  unfold uuid7_variant. intros H.
  assert (∀ i, 0 ≤ i → Z.testbit u (i + 62) && Z.testbit 3 i = Z.testbit 2 i) as Hbit.
  { intros i Hi. now rewrite <- H, Z.land_spec, Z.shiftr_spec. }
  pose proof (Hbit 1 ltac:(lia)) as H1. pose proof (Hbit 0 ltac:(lia)) as H0.
  cbn in H1, H0. rewrite andb_true_r in H1, H0. auto.
Qed.

Section uuid7_properties.

Variable isoformat_ms : string → option Z.

(** What [uuid7] returns, unless the timestamp is a string that
    [fromisoformat] rejects: the sum of its five fields. *)
Lemma uuid7_returns (unix_ms_time : time_arg) (random : random_arg) (w : world) :
  match uuid7_time isoformat_ms unix_ms_time w with
  | Return t =>
      (uuid7 isoformat_ms unix_ms_time random w).1.1 =
      Return ((t mod 2 ^ 48) * 2 ^ 80 + 7 * 2 ^ 76
              + (uuid7_random random w).1.1.1 * 2 ^ 64 + 2 * 2 ^ 62
              + (uuid7_random random w).1.1.2)
  | Raise e =>
      (uuid7 isoformat_ms unix_ms_time random w).1.1 = Raise e ∧
      ∃ s, unix_ms_time = TimeStr s ∧ isoformat_ms s = None
  end.
Proof.
  pose proof (uuid7_random_range random w) as [Ha Hb].
  unfold uuid7. destruct (uuid7_time isoformat_ms unix_ms_time w) as [t|e] eqn:E.
  - destruct (uuid7_random random w) as [[[a b] w1] gen]. cbn [fst snd] in *.
    rewrite uuid7_int_sum by assumption.
    apply UUID_of_int_in_range.
    apply (uuid7_fields (t mod 2 ^ 48) a b); [apply Z.mod_pos_bound; lia | |];
      assumption.
  - split; [reflexivity|]. destruct unix_ms_time as [| |s]; try discriminate E.
    exists s. split; [reflexivity|]. simpl in E.
    now destruct (isoformat_ms s).
Qed.

(** C8: whatever the timestamp argument (absent, an integer, a string)
    and the randomness argument (absent, a generator, an integer), the
    value [uuid7] returns is a 128-bit value with bits 79-76 equal to
    0111 and bits 63-62 equal to 10; it returns one unless the
    timestamp is a string that [fromisoformat] rejects. *)
Theorem uuid7_version_variant (unix_ms_time : time_arg) (random : random_arg)
    (w : world) :
  match (uuid7 isoformat_ms unix_ms_time random w).1.1 with
  | Return u =>
      0 ≤ u < 2 ^ 128 ∧
      uuid7_version u = 7 ∧ uuid7_variant u = 2 ∧
      Z.testbit u 79 = false ∧ Z.testbit u 78 = true ∧
      Z.testbit u 77 = true ∧ Z.testbit u 76 = true ∧
      Z.testbit u 63 = true ∧ Z.testbit u 62 = false
  | Raise _ => ∃ s, unix_ms_time = TimeStr s ∧ isoformat_ms s = None
  end.
Proof.
  pose proof (uuid7_returns unix_ms_time random w) as H.
  pose proof (uuid7_random_range random w) as [Ha Hb].
  destruct (uuid7_time isoformat_ms unix_ms_time w) as [t|e].
  - rewrite H.
    destruct (uuid7_fields (t mod 2 ^ 48) _ _
                ltac:(apply Z.mod_pos_bound; lia) Ha Hb)
      as (Hu & _ & Hver & _ & Hvar & _).
    pose proof (version_bits _ Hver). pose proof (variant_bits _ Hvar).
    intuition.
  - destruct H as [-> H]. exact H.
Qed.

(** C4, as the code has it: with an integer in place of a random
    source, [rand_a] is its low 12 bits and [rand_b] is the integer
    shifted right by 12 and masked to 62 bits, so bit [i] of the low
    62-bit field is bit [i + 12] of the integer, for every [i] below
    62. *)
Theorem uuid7_integer_seed (unix_ms_time : time_arg) (seed : Z) (w : world) :
  match (uuid7 isoformat_ms unix_ms_time (RandomInt seed) w).1.1 with
  | Return u =>
      uuid7_rand_a u = Z.land seed 0xFFF ∧
      uuid7_rand_b u = Z.land (Z.shiftr seed 12) (2 ^ 62 - 1) ∧
      ∀ i, 0 ≤ i < 62 → Z.testbit u i = Z.testbit seed (i + 12)
  | Raise _ => ∃ s, unix_ms_time = TimeStr s ∧ isoformat_ms s = None
  end.
Proof.
  pose proof (uuid7_returns unix_ms_time (RandomInt seed) w) as H.
  pose proof (uuid7_random_range (RandomInt seed) w) as [Ha Hb].
  destruct (uuid7_time isoformat_ms unix_ms_time w) as [t|e].
  - rewrite H.
    destruct (uuid7_fields (t mod 2 ^ 48) _ _
                ltac:(apply Z.mod_pos_bound; lia) Ha Hb)
      as (_ & _ & _ & Hrand_a & _ & Hrand_b).
    split; [exact Hrand_a|]. split; [exact Hrand_b|].
    intros i Hi.
    set (u := _ + _) in *.
    assert (Z.testbit (uuid7_rand_b u) i = Z.testbit u i) as <-.
    { unfold uuid7_rand_b. change (2 ^ 62 - 1) with (Z.ones 62).
      rewrite Z.land_spec, Z.ones_spec_low by lia. apply andb_true_r. }
    rewrite Hrand_b. cbn [uuid7_random fst snd].
    change 0x03FFFFFFFFFFFFFFF with (Z.ones 62).
    rewrite Z.land_spec, Z.ones_spec_low, Z.shiftr_spec by lia.
    apply andb_true_r.
  - destruct H as [-> H]. exact H.
Qed.

End uuid7_properties.

(** C4 as stated fails on the integer 2^68: its bit 68 lands in bit 56
    of the result, above the 56 bits the claim masks to. *)
Lemma uuid7_integer_seed_bit_56 :
  (uuid7 isoformat_unsupported (TimeInt 0) (RandomInt (2 ^ 68)) fresh_world).1.1
    = Return (7 * 2 ^ 76 + 2 * 2 ^ 62 + 2 ^ 56) ∧
  uuid7_rand_b (7 * 2 ^ 76 + 2 * 2 ^ 62 + 2 ^ 56) = 2 ^ 56 ∧
  Z.land (Z.shiftr (2 ^ 68) 12) (2 ^ 56 - 1) = 0 ∧
  Z.testbit (7 * 2 ^ 76 + 2 * 2 ^ 62 + 2 ^ 56) 56 = true.
Proof. vm_compute. auto. Qed.

Example uuid7_fixed :
  (uuid7 isoformat_unsupported (TimeInt 1700000000000) (RandomInt 0) fresh_world).1.1
  = Return 0x018bcfe5680070008000000000000000.
Proof. vm_compute. reflexivity. Qed.

(** ** create_with_slug: the candidate slugs *)

Lemma get_mem (n : nat) (s : string) (c : ascii) :
  String.get n s = Some c → Py.mem c s = true.
Proof.
  revert n. induction s as [|a s IH]; intros n H; [discriminate|].
  destruct n as [|n]; simpl in *.
  - injection H as ->. now rewrite Ascii.eqb_refl.
  - rewrite (IH n H). apply orb_true_r.
Qed.

Lemma getitem_mem (s : string) (i : Z) (c : ascii) :
  Py.getitem s i = Some c → Py.mem c s = true.
Proof.
  unfold Py.getitem. destruct (_ && _); [apply get_mem | discriminate].
Qed.

Lemma choice_mem (seq : string) (r : Random) :
  0 < Py.len seq → Py.mem (choice seq r).1 seq = true.
Proof.
  intros Hlen. unfold choice, randbelow. cbn [fst].
  destruct (getitem_in_range seq (tape r (cursor r) mod Py.len seq)) as [c Hc].
  { apply Z.mod_pos_bound. assumption. }
  rewrite Hc. now apply getitem_mem in Hc.
Qed.

Lemma random_letters_spec (n : nat) :
  ∀ r, String.length (random_letters n r).1 = n ∧
       letters_only (random_letters n r).1 = true.
Proof.
  induction n as [|n IH]; intros r; [split; reflexivity|].
  cbn [random_letters].
  pose proof (choice_mem ascii_letters r ltac:(reflexivity)) as Hc.
  destruct (choice ascii_letters r) as [c r1]. cbn [fst] in Hc.
  destruct (IH r1) as [Hlen Hletters].
  destruct (random_letters n r1) as [rest r2]. cbn [fst] in *.
  cbn [String.length letters_only]. now rewrite Hlen, Hc, Hletters.
Qed.

Section Slug_candidates.

Variables T DB : Type.
Variable slugify : string → string.
Variable MAX_SLUG_LENGTH : Z.

Lemma candidate_slug_retry (retry_i : nat) (base : string) (r : Random) :
  5 ≤ MAX_SLUG_LENGTH →
  retry_slug MAX_SLUG_LENGTH base (candidate_slug MAX_SLUG_LENGTH (S retry_i) base r).1.
Proof.
  intros Hmax. unfold candidate_slug, generate_random_short_suffix.
  destruct (random_letters_spec 4 r) as [Hlen Hletters].
  destruct (random_letters 4 r) as [suffix r1]. cbn [fst] in *.
  exists suffix. rewrite slice_prefix by lia. auto.
Qed.

Lemma retry_slug_length (base slug : string) :
  5 ≤ MAX_SLUG_LENGTH → retry_slug MAX_SLUG_LENGTH base slug → Py.len slug ≤ MAX_SLUG_LENGTH.
Proof.
  intros Hmax (suffix & -> & Hlen & _). unfold Py.len.
  rewrite !length_append, length_take, Hlen. simpl. lia.
Qed.

(** The slugs of a run are the candidates of the attempts made, in
    the order of [retries]. *)
Lemma retry_loop_slugs (create_func : gmap string string → DB → result T * DB)
    (base : string) (retries : list nat) :
  ∀ (kwargs : gmap string string) (db : DB) (r : Random) (j : nat) (slug : string),
    run_slugs (retry_loop MAX_SLUG_LENGTH retries create_func base kwargs db r) !! j
      = Some slug →
    ∃ retry_i r',
      retries !! j = Some retry_i ∧
      slug = (candidate_slug MAX_SLUG_LENGTH retry_i base r').1.
Proof.
  induction retries as [|retry_i retries IH]; intros kwargs db r j slug Hj.
  - discriminate Hj.
  - cbn [retry_loop] in Hj.
    destruct (candidate_slug MAX_SLUG_LENGTH retry_i base r) as [slug0 r1] eqn:E.
    assert (slug0 = (candidate_slug MAX_SLUG_LENGTH retry_i base r).1) as Hslug0
      by now rewrite E.
    destruct (atomic (create_func (<["slug":=slug0]> kwargs)) db) as [[v|e] db1].
    + destruct j as [|j]; [|discriminate Hj].
      injection Hj as <-. eauto.
    + destruct (is_IntegrityError e).
      * destruct j as [|j]; [injection Hj as <-; eauto|].
        cbn in Hj. apply IH in Hj as (i & r' & Hi & ->). eauto.
      * destruct j as [|j]; [|discriminate Hj].
        injection Hj as <-. eauto.
Qed.

(** X26: for [MAX_SLUG_LENGTH] of 5 or more, the slug of attempt 0 is
    the base slug, and the slug of every retry is the base slug cut to
    [MAX_SLUG_LENGTH - 5] characters, a hyphen and exactly 4 ASCII
    letters, which is never longer than [MAX_SLUG_LENGTH]. When a name
    is given the base slug is [slugify(name)] cut to
    [MAX_SLUG_LENGTH], and then no attempt's slug is longer than
    [MAX_SLUG_LENGTH]; when none is given the base slug is
    [default_slug]. *)
Theorem create_with_slug_candidates
    (create_func : gmap string string → DB → result T * DB)
    (default_slug : string) (kwargs : gmap string string) (db : DB) (r : Random)
    (i : nat) (slug : string) :
  5 ≤ MAX_SLUG_LENGTH →
  run_slugs (create_with_slug slugify MAX_SLUG_LENGTH create_func default_slug
               kwargs db r) !! i = Some slug →
  let base := slugified slugify MAX_SLUG_LENGTH default_slug kwargs in
  (i < 10)%nat ∧
  (i = 0%nat → slug = base) ∧
  ((1 ≤ i)%nat → retry_slug MAX_SLUG_LENGTH base slug ∧ Py.len slug ≤ MAX_SLUG_LENGTH) ∧
  (∀ name, kwargs !! "name" = Some name →
     base = Py.take (Z.to_nat MAX_SLUG_LENGTH) (slugify name) ∧
     Py.len slug ≤ MAX_SLUG_LENGTH) ∧
  (kwargs !! "name" = None → base = default_slug).
Proof.
  intros Hmax Hslug base. unfold create_with_slug in Hslug. fold base in Hslug.
  apply retry_loop_slugs in Hslug as (retry_i & r' & Hi & ->).
  apply lookup_seq in Hi as [-> Hi]. cbn [Nat.add] in *.
  assert ((1 ≤ i)%nat →
          retry_slug MAX_SLUG_LENGTH base (candidate_slug MAX_SLUG_LENGTH i base r').1 ∧
          Py.len (candidate_slug MAX_SLUG_LENGTH i base r').1 ≤ MAX_SLUG_LENGTH)
    as Hretry.
  { intros Hpos. destruct i as [|i]; [lia|].
    pose proof (candidate_slug_retry i base r' Hmax) as Hr.
    split; [exact Hr | now apply retry_slug_length in Hr]. }
  split; [exact Hi|]. split; [now intros ->|]. split; [exact Hretry|]. split.
  - intros name Hname.
    assert (base = Py.take (Z.to_nat MAX_SLUG_LENGTH) (slugify name)) as Hbase.
    { unfold base, slugified. rewrite Hname. apply slice_prefix. lia. }
    split; [exact Hbase|].
    destruct i as [|i]; [|apply Hretry; lia].
    cbn [candidate_slug fst]. rewrite Hbase. unfold Py.len.
    rewrite length_take. lia.
  - intros Hname. unfold base, slugified. now rewrite Hname.
Qed.

End Slug_candidates.

Lemma create_with_slug_candidates_witness :
  retry_slug 48 "posthog" "posthog-abcd" ∧ Py.len "posthog-abcd" ≤ 48.
Proof.
  assert (run_slugs (create_with_slug slugify_id 48 (failing_create duplicate_slug)
                       "" {[ "name" := "posthog" ]} tt counting) !! 1%nat
          = Some "posthog-abcd") as Hslug by (vm_compute; reflexivity).
  assert (5 ≤ 48) as Hmax by lia.
  destruct (create_with_slug_candidates _ _ _ _ _ _ _ _ _ _ _ Hmax Hslug)
    as (_ & _ & Hretry & _).
  apply Hretry. lia.
Defined.

(** C9 at the failing input: without a name, the default slug of 49
    characters is passed on at attempt 0 as it is, above the maximum
    of 48, where the retry cuts it to 43 characters before the suffix
    and the same text given as a name is cut to 48. *)
Theorem create_with_slug_default_slug_not_truncated :
  run_slugs (create_with_slug slugify_id 48 (failing_create duplicate_slug)
               "a-default-slug-that-is-longer-than-the-maximum-48" ∅ tt counting)
    !! 0%nat
    = Some "a-default-slug-that-is-longer-than-the-maximum-48" ∧
  Py.len "a-default-slug-that-is-longer-than-the-maximum-48" = 49 ∧
  run_slugs (create_with_slug slugify_id 48 (failing_create duplicate_slug)
               "a-default-slug-that-is-longer-than-the-maximum-48" ∅ tt counting)
    !! 1%nat
    = Some "a-default-slug-that-is-longer-than-the-maxi-abcd" ∧
  Py.len "a-default-slug-that-is-longer-than-the-maxi-abcd" = 48 ∧
  run_slugs (create_with_slug slugify_id 48 (failing_create duplicate_slug) ""
               {[ "name" := "a-default-slug-that-is-longer-than-the-maximum-48" ]}
               tt counting)
    !! 0%nat
    = Some "a-default-slug-that-is-longer-than-the-maximum-4" ∧
  Py.len "a-default-slug-that-is-longer-than-the-maximum-4" = 48.
Proof. vm_compute. repeat split. Qed.

(** ** create_with_slug: which failures are retried *)

Section Slug_retries.

Variables T DB : Type.
Variable slugify : string → string.
Variable MAX_SLUG_LENGTH : Z.
Variable create_func : gmap string string → DB → result T * DB.

Lemma retry_loop_attempts (base : string) (kwargs0 : gmap string string) (db : DB)
    (retries : list nat) :
  ∀ (kwargs : gmap string string) (r : Random),
    (∀ s, <["slug":=s]> kwargs = <["slug":=s]> kwargs0) →
    retries ≠ [] →
    ∃ failed last_slug,
      run_slugs (retry_loop MAX_SLUG_LENGTH retries create_func base kwargs db r)
        = failed ++ [last_slug] ∧
      (length failed < length retries)%nat ∧
      Forall (λ slug, ∃ e, (create_func (<["slug":=slug]> kwargs0) db).1 = Raise e ∧
                           is_IntegrityError e = true) failed ∧
      ends_with (length retries - S (length failed)) db
        (retry_loop MAX_SLUG_LENGTH retries create_func base kwargs db r)
        (create_func (<["slug":=last_slug]> kwargs0) db).
Proof.
  induction retries as [|retry_i retries IH]; intros kwargs r Hkw Hne;
    [contradiction|].
  cbn [retry_loop].
  destruct (candidate_slug MAX_SLUG_LENGTH retry_i base r) as [slug r1].
  unfold atomic. rewrite Hkw.
  destruct (create_func (<["slug":=slug]> kwargs0) db) as [[v|e] db'] eqn:E.
  - exists [], slug. cbn [app length]. rewrite E.
    split; [reflexivity|]. split; [lia|]. split; [constructor|].
    split; reflexivity.
  - destruct (is_IntegrityError e) eqn:He.
    + destruct retries as [|retry_j retries'].
      * exists [], slug. cbn [retry_loop attempted run_slugs app length].
        rewrite E. split; [reflexivity|]. split; [lia|]. split; [constructor|].
        cbn [ends_with run_db run_result]. rewrite He. auto.
      * destruct (IH (<["slug":=slug]> kwargs0) r1) as (failed & last_slug & Hs & Hlen & Hall & Hend);
          [intros s; apply insert_insert_eq | discriminate |].
        exists (slug :: failed), last_slug.
        unfold attempted. cbn [run_slugs]. rewrite Hs.
        split; [reflexivity|]. split; [cbn [length] in *; lia|]. split.
        -- constructor; [|exact Hall]. exists e. now rewrite E.
        -- revert Hend. unfold ends_with. cbn [run_result run_db length].
           replace (S (length (retry_j :: retries')) - S (S (length failed)))%nat
             with (length (retry_j :: retries') - S (length failed))%nat by lia.
           auto.
    + exists [], slug. cbn [app length run_slugs]. rewrite E.
      split; [reflexivity|]. split; [lia|]. split; [constructor|].
      cbn [ends_with run_db run_result]. now rewrite He.
Qed.


End Slug_retries.


Example create_with_slug_operational_error :
  run_slugs (create_with_slug slugify_id 48
               (failing_create (Exc OperationalError "connection refused"))
               "team" ∅ tt counting) = ["team"] ∧
  run_result (create_with_slug slugify_id 48
                (failing_create (Exc OperationalError "connection refused"))
                "team" ∅ tt counting)
    = Raise (Exc OperationalError "connection refused").
Proof. vm_compute. auto. Qed.

(* ================================================================== *)
(** * Further properties *)

(** ** The series counter: range, frame and what eviction forgets *)

(** X1: in a process's own dictionary [get_series] returns a value in
    the range [0, 65536) its docstring names. *)
Theorem get_series_range (t : Z) (d : gmap Z Z) :
  reachable d → 0 ≤ (get_series t d).1 < 65536.
Proof.
  intros Hd. rewrite get_series_eq. cbn [fst].
  now apply reachable_counter_range.
Qed.

Lemma get_series_range_witness :
  0 ≤ (get_series 5 (get_series 5 ∅).2).1 < 65536.
Proof. apply get_series_range. repeat constructor. Defined.

Lemma get_series_other (t t' : Z) (d : gmap Z Z) :
  Z.of_nat (size (series_read t d)) ≤ 10000 → t' ≠ t →
  (get_series t d).2 !! t' = d !! t'.
Proof.
  intros Hsize Hne. rewrite get_series_eq. cbn [snd].
  rewrite lookup_insert_ne by congruence. unfold series_evict.
  destruct (Z.ltb_spec 10000 (Z.of_nat (size (series_read t d)))); [lia|].
  unfold series_read, defaultdict_getitem.
  destruct (d !! t); cbn [snd]; [reflexivity|].
  apply lookup_insert_ne. congruence.
Qed.

(** X2: a call that does not evict leaves every other timestamp as it
    was, tracked or not, and the timestamp it was made for tracked. *)
Theorem get_series_frame (t t' : Z) (d : gmap Z Z) :
  Z.of_nat (size (series_read t d)) ≤ 10000 → t' ≠ t →
  (get_series t d).2 !! t' = d !! t' ∧
  (get_series t d).2 !! t = Some ((counter t d + 1) mod 65536).
Proof.
  intros Hsize Hne. split; [now apply get_series_other|].
  rewrite get_series_eq. cbn [snd]. apply lookup_insert_eq.
Qed.

Lemma get_series_frame_witness :
  (get_series 2 (get_series 1 ∅).2).2 !! 1 = (get_series 1 ∅).2 !! 1 ∧
  (get_series 2 (get_series 1 ∅).2).2 !! 2
    = Some ((counter 2 (get_series 1 ∅).2 + 1) mod 65536).
Proof.
  apply get_series_frame; [vm_compute; discriminate | lia].
Defined.

(** X3: a call that evicts forgets every other timestamp, so the next
    call for any of them returns 0 again, whatever its counter was. *)
Theorem get_series_eviction_forgets (t t' : Z) (d : gmap Z Z) :
  10000 < Z.of_nat (size (series_read t d)) → t' ≠ t →
  (get_series t d).2 !! t' = None ∧
  (get_series t' (get_series t d).2).1 = 0.
Proof.
  intros Hsize Hne.
  assert ((get_series t d).2 !! t' = None) as Hnone.
  { rewrite get_series_eq. cbn [snd]. unfold series_evict.
    destruct (Z.ltb_spec 10000 (Z.of_nat (size (series_read t d)))); [|lia].
    rewrite insert_insert_eq. rewrite lookup_insert_ne by congruence.
    apply lookup_empty. }
  split; [exact Hnone|].
  rewrite (get_series_eq t'). cbn [fst]. unfold counter. now rewrite Hnone.
Qed.

Lemma get_series_eviction_forgets_witness :
  (get_series 10000 full_dictionary).2 !! 0 = None ∧
  (get_series 0 (get_series 10000 full_dictionary).2).1 = 0.
Proof.
  apply get_series_eviction_forgets; [exact full_dictionary_overflows | lia].
Defined.

(** Calls for other timestamps that do not evict leave a counter as
    it is. *)
Lemma get_series_run_frame (t : Z) (ts : list Z) :
  ∀ d : gmap Z Z,
    Forall (λ t', t' ≠ t) ts →
    Z.of_nat (size d) + Z.of_nat (length ts) ≤ 10000 →
    counter t (get_series_run ts d).2 = counter t d.
Proof.
  induction ts as [|t' ts IH]; intros d Hne Hsize; [reflexivity|].
  rewrite get_series_run_cons. cbn [snd length] in *.
  inversion Hne as [|? ? Ht' Hts]; subst.
  pose proof (series_read_size t' d) as Hread.
  assert (Z.of_nat (size (series_read t' d)) ≤ 10000) as Hfit by lia.
  rewrite IH; [| exact Hts |].
  - unfold counter. now rewrite (get_series_other t' t) by (assumption || congruence).
  - rewrite (get_series_eq t' d). cbn [snd]. unfold series_evict.
    destruct (Z.ltb_spec 10000 (Z.of_nat (size (series_read t' d)))); [lia|].
    rewrite map_size_insert_Some by (rewrite series_read_lookup; eauto). lia.
Qed.

Lemma get_series_run_first_counter (n : nat) :
  Z.of_nat n < 10000 →
  counter 0 (get_series_run (Z.of_nat <$> seq 0 (S n)) ∅).2 = 1.
Proof.
  intros Hn. cbn [seq fmap list_fmap]. rewrite get_series_run_cons. cbn [snd].
  rewrite get_series_run_frame.
  - rewrite get_series_counter. reflexivity.
  - apply Forall_fmap, Forall_forall. intros i Hi.
    apply elem_of_seq in Hi. change (Z.of_nat i ≠ 0). lia.
  - rewrite length_fmap, length_seq.
    assert (size (get_series (Z.of_nat 0) ∅).2 = 1%nat) as -> by reflexivity.
    lia.
Qed.

(** The timestamp 0 had been given the series 0 in [full_dictionary]
    already: after the eviction it is given out a second time. *)
Lemma full_dictionary_counter_0 : counter 0 full_dictionary = 1.
Proof.
  unfold full_dictionary.
  replace (Z.to_nat 10000) with (S (Z.to_nat 9999)) by lia.
  apply get_series_run_first_counter. lia.
Qed.

(** ** UUIDT: overflow, order within a millisecond, the parse path *)



(** X5: two identifiers minted one after the other by a process whose
    clock has not gone back are in increasing order, also within one
    millisecond, as long as the series of that millisecond has not
    reached 65535. *)
Theorem UUIDT_consecutive_sorted (unix_a unix_b : option Z)
    (random_a random_b : option Random) (w_a w_b : world) :
  reachable (current_series_per_ms w_a) →
  current_series_per_ms w_b =
    current_series_per_ms (UUIDT_mint unix_a random_a w_a).1.2 →
  0 ≤ mint_time unix_a w_a →
  mint_time unix_a w_a ≤ mint_time unix_b w_b →
  mint_time unix_b w_b < 2 ^ 48 →
  (mint_time unix_a w_a = mint_time unix_b w_b →
   counter (mint_time unix_a w_a) (current_series_per_ms w_a) < 65535) →
  ∃ u_a u_b,
    (UUIDT_mint unix_a random_a w_a).1.1 = Return u_a ∧
    (UUIDT_mint unix_b random_b w_b).1.1 = Return u_b ∧
    u_a < u_b.
Proof.
  intros Ha Hwb H0 Hle H48 Hseries.
  set (ta := mint_time unix_a w_a) in *. set (tb := mint_time unix_b w_b) in *.
  pose proof (reachable_counter_range _ Ha ta) as Hca.
  destruct (UUIDT_mint_layout unix_a random_a w_a ltac:(fold ta; lia) Hca)
    as (ra & wa' & sa' & Hra & Hmint_a & Hda).
  fold ta in Hmint_a, Hda. rewrite Hmint_a in Hwb |- *. cbn [fst snd] in Hwb |- *.
  rewrite Hda in Hwb.
  assert (reachable (current_series_per_ms w_b)) as Hb
    by (rewrite Hwb; now constructor).
  pose proof (reachable_counter_range _ Hb tb) as Hcb.
  destruct (UUIDT_mint_layout unix_b random_b w_b ltac:(fold tb; lia) Hcb)
    as (rb & wb' & sb' & Hrb & Hmint_b & _).
  fold tb in Hmint_b. rewrite Hmint_b. cbn [fst].
  eexists _, _. split; [reflexivity|]. split; [reflexivity|].
  change (2 ^ 80) with (65536 * 2 ^ 64). assert (0 < 2 ^ 64) by lia.
  destruct (Z.eq_dec ta tb) as [Heq|Hne].
  - assert (counter tb (current_series_per_ms w_b)
            = counter ta (current_series_per_ms w_a) + 1) as ->.
    { rewrite Hwb, <- Heq, get_series_counter. apply Z.mod_small.
      specialize (Hseries Heq). lia. }
    rewrite <- Heq. nia.
  - set (ca := counter ta _) in *. set (cb := counter tb _) in *. nia.
Qed.

Lemma UUIDT_consecutive_sorted_witness :
  ∃ u_a u_b,
    (UUIDT_mint (Some 1700000000000) None fresh_world).1.1 = Return u_a ∧
    (UUIDT_mint (Some 1700000000000) None
       (UUIDT_mint (Some 1700000000000) None fresh_world).1.2).1.1 = Return u_b ∧
    u_a < u_b.
Proof.
  apply (UUIDT_consecutive_sorted (Some 1700000000000) (Some 1700000000000)
           None None fresh_world).
  - constructor.
  - reflexivity.
  - simpl. lia.
  - simpl. lia.
  - simpl. lia.
  - intros _. vm_compute. reflexivity.
Defined.

(** X6: when the series of a millisecond stands at 65535, the next
    identifier of that millisecond wraps to series 0 and sorts before
    the one minted just before it. *)
Theorem UUIDT_wrap_breaks_order (unix_a unix_b : option Z)
    (random_a random_b : option Random) (w_a w_b : world) :
  reachable (current_series_per_ms w_a) →
  current_series_per_ms w_b =
    current_series_per_ms (UUIDT_mint unix_a random_a w_a).1.2 →
  0 ≤ mint_time unix_a w_a < 2 ^ 48 →
  mint_time unix_b w_b = mint_time unix_a w_a →
  counter (mint_time unix_a w_a) (current_series_per_ms w_a) = 65535 →
  ∃ u_a u_b,
    (UUIDT_mint unix_a random_a w_a).1.1 = Return u_a ∧
    (UUIDT_mint unix_b random_b w_b).1.1 = Return u_b ∧
    UUIDT_series u_a = 65535 ∧ UUIDT_series u_b = 0 ∧
    u_b < u_a.
Proof.
  intros Ha Hwb Ht Heq Hseries.
  set (ta := mint_time unix_a w_a) in *.
  pose proof (reachable_counter_range _ Ha ta) as Hca.
  destruct (UUIDT_mint_layout unix_a random_a w_a Ht Hca)
    as (ra & wa' & sa' & Hra & Hmint_a & Hda).
  fold ta in Hmint_a, Hda. rewrite Hmint_a in Hwb |- *. cbn [fst snd] in Hwb |- *.
  rewrite Hda in Hwb.
  assert (reachable (current_series_per_ms w_b)) as Hb
    by (rewrite Hwb; now constructor).
  pose proof (reachable_counter_range _ Hb (mint_time unix_b w_b)) as Hcb.
  destruct (UUIDT_mint_layout unix_b random_b w_b ltac:(rewrite Heq; exact Ht) Hcb)
    as (rb & wb' & sb' & Hrb & Hmint_b & _).
  rewrite Hmint_b. cbn [fst].
  assert (counter (mint_time unix_b w_b) (current_series_per_ms w_b) = 0) as Hzero.
  { rewrite Heq, Hwb, get_series_counter, Hseries. reflexivity. }
  rewrite Hzero in *. rewrite Heq, Hseries.
  eexists _, _. split; [reflexivity|]. split; [reflexivity|].
  rewrite !UUIDT_series_layout by lia.
  split; [reflexivity|]. split; [reflexivity|]. lia.
Qed.

Lemma busy_world_counter :
  counter 1700000000000 (current_series_per_ms busy_world) = 65535.
Proof.
  unfold busy_world. cbn [current_series_per_ms].
  destruct (get_series_run_counts 1700000000000 (Z.to_nat 65535) ∅ 0)
    as [_ ->]; [reflexivity | lia | lia |].
  rewrite Z2Nat.id by lia. reflexivity.
Qed.

Lemma UUIDT_wrap_breaks_order_witness :
  ∃ u_a u_b,
    (UUIDT_mint (Some 1700000000000) None busy_world).1.1 = Return u_a ∧
    (UUIDT_mint (Some 1700000000000) None
       (UUIDT_mint (Some 1700000000000) None busy_world).1.2).1.1 = Return u_b ∧
    UUIDT_series u_a = 65535 ∧ UUIDT_series u_b = 0 ∧
    u_b < u_a.
Proof.
  apply (UUIDT_wrap_breaks_order (Some 1700000000000) (Some 1700000000000)
           None None busy_world).
  - apply reachable_run. constructor.
  - reflexivity.
  - unfold mint_time. lia.
  - unfold mint_time. reflexivity.
  - exact busy_world_counter.
Defined.

Section UUIDT_parse.

Variable int16 : string → option Z.

(** X7: a string that [is_valid_uuid] accepts is never turned down by
    the constructor: the identifier is the value [int(_, 16)] reads in
    the string without its decoration, a 128-bit value, and neither the
    counter nor a random source is touched. *)
Theorem UUIDT_init_valid_string (uuid_str : string) (unix_time_ms : option Z)
    (seeded_random : option Random) (w : world) :
  is_valid_uuid int16 uuid_str = Return true →
  ∃ n, int16 (undecorate uuid_str) = Some n ∧ 0 ≤ n < 2 ^ 128 ∧
       UUIDT_init int16 unix_time_ms (Some uuid_str) seeded_random w =
       (Return n, w, seeded_random).
Proof.
  intros Hvalid. unfold UUIDT_init.
  destruct uuid_str as [|c s]; [discriminate Hvalid|]. cbn [truthy].
  rewrite Hvalid. unfold is_valid_uuid, UUID_of_hex, int_hex in *.
  destruct (negb (Py.len (undecorate (String c s)) =? 32)); [discriminate|].
  destruct (int16 (undecorate (String c s))) as [n|]; [|discriminate].
  cbn [bind] in *. exists n. unfold UUID_of_int.
  destruct (Z.leb_spec 0 n), (Z.ltb_spec n (2 ^ 128)); try discriminate.
  auto.
Qed.

End UUIDT_parse.

Lemma UUIDT_init_valid_string_witness :
  ∃ n, int16_ascii (undecorate "{018bcfe5-6800-0000-0001-020304050607}") = Some n ∧
       0 ≤ n < 2 ^ 128 ∧
       UUIDT_init int16_ascii None (Some "{018bcfe5-6800-0000-0001-020304050607}")
         None fresh_world = (Return n, fresh_world, None).
Proof.
  apply UUIDT_init_valid_string. vm_compute. reflexivity.
Defined.

(** ** uuid7: the timestamp field, order, and the sources of randomness *)

Section uuid7_fields.

Variable isoformat_ms : string → option Z.

(** X8: given an integer timestamp [uuid7] never fails, and the
    timestamp field of the result is the timestamp modulo 2^48: a
    negative or a larger one wraps without notice. *)
Theorem uuid7_timestamp_wraps (t : Z) (random : random_arg) (w : world) :
  ∃ u, (uuid7 isoformat_ms (TimeInt t) random w).1.1 = Return u ∧
       uuid7_timestamp u = t mod 2 ^ 48.
Proof.
  pose proof (uuid7_returns isoformat_ms (TimeInt t) random w) as H.
  pose proof (uuid7_random_range random w) as [Ha Hb].
  cbn [uuid7_time] in H. rewrite H. eexists. split; [reflexivity|].
  destruct (uuid7_fields (t mod 2 ^ 48) _ _
              ltac:(apply Z.mod_pos_bound; lia) Ha Hb) as (_ & Htime & _).
  exact Htime.
Qed.

(** X9: of two values made for integer timestamps [t_a < t_b] that fit
    in 48 bits, the first is the smaller, whatever the randomness. *)
Theorem uuid7_sorts_by_timestamp (t_a t_b : Z) (random_a random_b : random_arg)
    (w_a w_b : world) :
  0 ≤ t_a → t_a < t_b → t_b < 2 ^ 48 →
  ∃ u_a u_b,
    (uuid7 isoformat_ms (TimeInt t_a) random_a w_a).1.1 = Return u_a ∧
    (uuid7 isoformat_ms (TimeInt t_b) random_b w_b).1.1 = Return u_b ∧
    u_a < u_b.
Proof.
  intros H0 Hlt H48.
  pose proof (uuid7_returns isoformat_ms (TimeInt t_a) random_a w_a) as Hua.
  pose proof (uuid7_returns isoformat_ms (TimeInt t_b) random_b w_b) as Hub.
  pose proof (uuid7_random_range random_a w_a) as [Haa Hab].
  pose proof (uuid7_random_range random_b w_b) as [Hba Hbb].
  cbn [uuid7_time] in Hua, Hub. rewrite Hua, Hub.
  eexists _, _. split; [reflexivity|]. split; [reflexivity|].
  rewrite !Z.mod_small by lia.
  set (aa := (uuid7_random random_a w_a).1.1.1) in *.
  set (ab := (uuid7_random random_a w_a).1.1.2) in *.
  set (ba := (uuid7_random random_b w_b).1.1.1) in *.
  set (bb := (uuid7_random random_b w_b).1.1.2) in *.
  change (2 ^ 80) with (16 * 2 ^ 12 * 4 * 2 ^ 62).
  change (2 ^ 76) with (2 ^ 12 * 4 * 2 ^ 62).
  change (2 ^ 64) with (4 * 2 ^ 62).
  change (2 ^ 12) with 4096 in *. assert (0 < 2 ^ 62) by lia. nia.
Qed.



End uuid7_fields.

Lemma uuid7_sorts_by_timestamp_witness :
  ∃ u_a u_b,
    (uuid7 isoformat_unsupported (TimeInt 1699999999999) (RandomInt (-1))
       fresh_world).1.1 = Return u_a ∧
    (uuid7 isoformat_unsupported (TimeInt 1700000000000) RandomNone
       fresh_world).1.1 = Return u_b ∧
    u_a < u_b.
Proof. apply uuid7_sorts_by_timestamp; lia. Defined.

(** ** int_to_base: what the digits are and what they denote *)

Lemma str_append_assoc (s1 s2 s3 : string) :
  (s1 +:+ s2) +:+ s3 = s1 +:+ (s2 +:+ s3).
Proof.
  induction s1 as [|c s1 IH]; [reflexivity|].
  rewrite !append_cons. now rewrite IH.
Qed.

Lemma all_in_append (chars s1 s2 : string) :
  all_in chars (s1 +:+ s2) = all_in chars s1 && all_in chars s2.
Proof.
  induction s1 as [|c s1 IH]; [reflexivity|].
  rewrite append_cons. cbn [all_in]. rewrite IH. apply andb_assoc.
Qed.

Lemma digits_value_append (base : Z) (s1 s2 : string) :
  ∀ acc, digits_value base acc (s1 +:+ s2) =
         match digits_value base acc s1 with
         | Some a => digits_value base a s2
         | None => None
         end.
Proof.
  induction s1 as [|c s1 IH]; intros acc; [reflexivity|].
  rewrite append_cons. cbn [digits_value].
  destruct (position c BASE62); [apply IH | reflexivity].
Qed.

Lemma get_take (n i : nat) (s : string) :
  (i < n)%nat → String.get i (Py.take n s) = String.get i s.
Proof.
  revert i s. induction n as [|n IH]; intros i s Hi; [lia|].
  destruct s as [|c s]; [reflexivity|].
  destruct i as [|i]; [reflexivity|]. simpl. apply IH. lia.
Qed.

(** The symbols of [BASE62] are all different: each is at the position
    it is read from. *)
Lemma BASE62_positions (i : nat) (c : ascii) :
  String.get i BASE62 = Some c → position c BASE62 = Some (Z.of_nat i).
Proof.
  intros H.
  assert (i < 62)%nat as Hi.
  { destruct (Nat.lt_ge_cases i 62) as [?|Hge]; [assumption|].
    assert (String.get i BASE62 = None) as E; [|congruence].
    clear H. do 62 (destruct i as [|i]; [lia|]). reflexivity. }
  do 62 (destruct i as [|i];
         [injection H as <-; vm_compute; reflexivity|]).
  lia.
Qed.

Lemma alphabet_positions (base i : Z) (c : ascii) :
  0 ≤ base ≤ 62 → 0 ≤ i < base →
  Py.getitem (Py.slice None (Some base) BASE62) i = Some c →
  position c BASE62 = Some i.
Proof.
  intros Hb Hi H. rewrite slice_prefix in H by lia.
  unfold Py.getitem in H. destruct (i <? 0) eqn:E; [lia|].
  destruct (_ && _); [|discriminate].
  rewrite get_take in H by lia. apply BASE62_positions in H.
  rewrite H. f_equal. lia.
Qed.

(** The loop in full: within [L] iterations it puts before [value]
    the digits of a number below [b ^ L], most significant first. *)
Lemma encode_loop_spec (base : Z) :
  2 ≤ base ≤ 62 →
  ∀ (L : nat) (number : Z) (value : string),
    0 ≤ number < base ^ Z.of_nat L →
    ∃ prefix,
      encode_loop L (Py.slice None (Some base) BASE62) number value
        = Some (Return (prefix +:+ value)) ∧
      (String.length prefix ≤ L)%nat ∧
      all_in (Py.slice None (Some base) BASE62) prefix = true ∧
      (∀ acc, digits_value base acc prefix
              = Some (acc * base ^ Z.of_nat (String.length prefix) + number)) ∧
      (number ≠ 0 → prefix ≠ "").
Proof.
  intros Hb. pose proof (alphabet_length base ltac:(lia)) as Hlen.
  set (alphabet := Py.slice None (Some base) BASE62) in *.
  assert (∀ value,
            ∃ prefix, encode_loop 0 alphabet 0 value = Some (Return (prefix +:+ value)) ∧
              (String.length prefix ≤ 0)%nat ∧ all_in alphabet prefix = true ∧
              (∀ acc, digits_value base acc prefix
                      = Some (acc * base ^ Z.of_nat (String.length prefix) + 0)) ∧
              (0 ≠ 0 → prefix ≠ "")) as Hzero.
  { intros value. exists "". split; [reflexivity|]. split; [simpl; lia|].
    split; [reflexivity|].
    split; [intros acc; simpl; f_equal; lia | congruence]. }
  induction L as [|L IH]; intros number value Hn.
  - assert (number = 0) as -> by (simpl in Hn; lia). apply Hzero.
  - destruct (Z.eq_dec number 0) as [->|Hne].
    + destruct (Hzero value) as (prefix & Hrun & Hl & Hrest).
      exists prefix. rewrite encode_loop_done.
      rewrite encode_loop_done in Hrun. split; [exact Hrun|].
      split; [lia | exact Hrest].
    + destruct (getitem_in_range alphabet (number mod Py.len alphabet)) as [c Hc].
      { apply Z.mod_pos_bound. lia. }
      rewrite (encode_loop_step _ _ _ _ c) by (assumption || lia).
      rewrite Nat2Z.inj_succ, Z.pow_succ_r in Hn by lia.
      destruct (IH (number / Py.len alphabet) (String c value))
        as (prefix & Hrun & Hl & Hall & Hval & _).
      { rewrite Hlen. split; [apply Z.div_pos; lia|].
        apply Z.div_lt_upper_bound; lia. }
      exists (prefix +:+ String c "").
      rewrite str_append_assoc. split; [exact Hrun|].
      split; [rewrite length_append; simpl; lia|]. split.
      { rewrite all_in_append, Hall. cbn [all_in].
        now rewrite (getitem_mem _ _ _ Hc). }
      split; [|now destruct prefix].
      intros acc. rewrite digits_value_append, Hval. cbn [digits_value].
      rewrite Hlen in Hc.
      rewrite (alphabet_positions base (number mod base) c ltac:(lia)
                 ltac:(apply Z.mod_pos_bound; lia) Hc).
      f_equal. rewrite length_append. cbn [String.length].
      rewrite Hlen, Nat2Z.inj_add, Z.pow_add_r by lia. change (base ^ Z.of_nat 1) with (base ^ 1).
      rewrite Z.pow_1_r. pose proof (Z.div_mod number base ltac:(lia)). nia.
Qed.

Lemma mem_take (c : ascii) (n : nat) (s : string) :
  Py.mem c (Py.take n s) = true → Py.mem c s = true.
Proof.
  revert s. induction n as [|n IH]; intros [|d s] H; try discriminate.
  simpl in *. destruct (Ascii.eqb c d); [reflexivity|]. now apply IH.
Qed.

Lemma alphabet_has_zero (base : Z) :
  1 ≤ base → Py.mem "0" (Py.slice None (Some base) BASE62) = true.
Proof.
  intros Hb. rewrite slice_prefix by lia.
  destruct (Z.to_nat base) as [|n] eqn:E; [lia|]. reflexivity.
Qed.

(** Digits of the alphabet never start with a minus sign. *)
Lemma no_leading_minus (base : Z) (s : string) :
  0 ≤ base →
  all_in (Py.slice None (Some base) BASE62) s = true →
  base_to_int base s = digits_value base 0 s.
Proof.
  intros Hb H. destruct s as [|c s]; [reflexivity|].
  cbn [all_in] in H. apply andb_prop in H as [Hc _].
  rewrite slice_prefix in Hc by lia. apply mem_take in Hc.
  unfold base_to_int.
  destruct (Ascii.eqb_spec c "-") as [->|Hne]; [discriminate Hc|].
  destruct c as [[] [] [] [] [] [] [] []]; try reflexivity. congruence.
Qed.

Lemma int_to_base_nonneg_spec (number base : Z) (L fuel : nat) :
  2 ≤ base ≤ 62 → 0 ≤ number < base ^ Z.of_nat L → (L ≤ fuel)%nat →
  ∃ s, int_to_base fuel number base = Some (Return s) ∧
       (1 ≤ String.length s ≤ Nat.max 1 L)%nat ∧
       all_in (Py.slice None (Some base) BASE62) s = true ∧
       digits_value base 0 s = Some number ∧
       (number = 0 → s = "0").
Proof.
  intros Hb Hn Hfuel. rewrite int_to_base_nonneg by lia.
  destruct (Z.eq_dec number 0) as [->|Hne].
  - rewrite encode_loop_done. exists "0".
    split; [reflexivity|]. split; [simpl; lia|].
    split; [cbn [all_in]; rewrite alphabet_has_zero by lia; reflexivity|].
    split; [reflexivity | auto].
  - destruct (encode_loop_spec base Hb L number "" Hn)
      as (prefix & Hrun & Hlen & Hall & Hval & Hnonempty).
    rewrite (encode_loop_more_fuel _ _ _ _ _ fuel Hrun Hfuel).
    assert (prefix +:+ "" = prefix) as ->.
    { clear. induction prefix as [|c p IH]; [reflexivity|].
      rewrite append_cons. now rewrite IH. }
    destruct prefix as [|c p]; [now contradiction Hnonempty|].
    exists (String c p). split; [reflexivity|]. split; [simpl in *; lia|].
    split; [exact Hall|]. split; [rewrite Hval; reflexivity | contradiction].
Qed.

Lemma number_below_power (number base : Z) :
  2 ≤ base → 0 ≤ number → number < base ^ Z.of_nat (Z.to_nat number).
Proof.
  intros Hb Hn. rewrite Z2Nat.id by lia.
  pose proof (Z.pow_gt_lin_r 2 number ltac:(lia) Hn).
  pose proof (Z.pow_le_mono_l 2 base number ltac:(lia)). lia.
Qed.

(** Any run that returns: its string is made of the alphabet and
    denotes the number. *)
Lemma int_to_base_nonneg_any (fuel : nat) (number base : Z) (s : string) :
  2 ≤ base ≤ 62 → 0 ≤ number →
  int_to_base fuel number base = Some (Return s) →
  all_in (Py.slice None (Some base) BASE62) s = true ∧
  digits_value base 0 s = Some number.
Proof.
  intros Hb Hn Hrun.
  destruct (int_to_base_nonneg_spec number base (Z.to_nat number)
              (Nat.max fuel (Z.to_nat number)) Hb
              ltac:(split; [lia | apply number_below_power; lia]) ltac:(lia))
    as (s' & Hrun' & _ & Hall & Hval & _).
  rewrite int_to_base_nonneg in Hrun, Hrun' by lia.
  destruct (encode_loop fuel (Py.slice None (Some base) BASE62) number "")
    as [r|] eqn:E; [|discriminate].
  rewrite (encode_loop_more_fuel _ _ _ _ _ (Nat.max fuel (Z.to_nat number)) E)
    in Hrun' by lia.
  destruct r as [v|e]; [|discriminate].
  assert (s = s') as -> by congruence. auto.
Qed.

(** [int_to_base] read back: [base_to_int] finds the number again. *)
Lemma int_to_base_round_trip (fuel : nat) (number base : Z) (s : string) :
  2 ≤ base ≤ 62 →
  int_to_base fuel number base = Some (Return s) →
  base_to_int base s = Some number.
Proof.
  intros Hb Hrun. destruct (Z.lt_ge_cases number 0) as [Hneg|Hpos].
  - destruct fuel as [|fuel].
    { simpl in Hrun. destruct (62 <? base); [discriminate|].
      destruct (Z.ltb_spec number 0); [discriminate | lia]. }
    rewrite int_to_base_neg in Hrun by lia.
    destruct (int_to_base fuel (- number) base) as [[s'|e]|] eqn:E;
      try discriminate.
    injection Hrun as <-.
    destruct (int_to_base_nonneg_any fuel (- number) base s' Hb ltac:(lia) E)
      as [_ Hval].
    rewrite append_cons. cbn [base_to_int String.append].
    change ("" +:+ s') with s'. rewrite Hval. f_equal. lia.
  - destruct (int_to_base_nonneg_any _ _ _ _ Hb Hpos Hrun) as [Hall Hval].
    rewrite no_leading_minus by (assumption || lia). exact Hval.
Qed.

(** X12: for a base from 2 to 62 [int_to_base] never gives two numbers
    the same string. *)
Theorem int_to_base_injective (fuel1 fuel2 : nat) (n1 n2 base : Z) (s : string) :
  2 ≤ base ≤ 62 →
  int_to_base fuel1 n1 base = Some (Return s) →
  int_to_base fuel2 n2 base = Some (Return s) →
  n1 = n2.
Proof.
  intros Hb H1 H2.
  apply int_to_base_round_trip in H1, H2; try assumption. congruence.
Qed.

Lemma int_to_base_injective_witness : 12345 = 12345.
Proof.
  apply (int_to_base_injective 3 10 12345 12345 62 "3d7"); [lia | |]; reflexivity.
Defined.

(** X13: for a base from 2 to 62 and a number from 0 to below
    [base ^ L], [L] iterations are enough, and the string returned has
    between 1 and [L] characters (1 when [L] is 0), all among the first
    [base] symbols of [BASE62]; it is "0" for the number 0. *)
Theorem int_to_base_digits (number base : Z) (L fuel : nat) :
  2 ≤ base ≤ 62 → 0 ≤ number < base ^ Z.of_nat L → (L ≤ fuel)%nat →
  ∃ s, int_to_base fuel number base = Some (Return s) ∧
       (1 ≤ String.length s ≤ Nat.max 1 L)%nat ∧
       all_in (Py.slice None (Some base) BASE62) s = true ∧
       (number = 0 → s = "0").
Proof.
  intros Hb Hn Hfuel.
  destruct (int_to_base_nonneg_spec number base L fuel Hb Hn Hfuel)
    as (s & Hrun & Hlen & Hall & _ & Hzero).
  eauto.
Qed.

Lemma int_to_base_digits_witness :
  ∃ s, int_to_base 3 12345 62 = Some (Return s) ∧
       (1 ≤ String.length s ≤ Nat.max 1 3)%nat ∧
       all_in (Py.slice None (Some 62) BASE62) s = true ∧
       (12345 = 0 → s = "0").
Proof. apply int_to_base_digits; [lia | simpl; lia | lia]. Defined.

(** X14: a negative base is not turned down: from -62 to -1 it cuts
    the alphabet from the end, and [int_to_base] works in base
    [62 + base]. *)
Theorem int_to_base_negative_base (fuel : nat) (number base : Z) :
  -62 ≤ base < 0 →
  int_to_base fuel number base = int_to_base fuel number (62 + base).
Proof.
  intros Hb.
  assert (Py.slice None (Some base) BASE62 = Py.slice None (Some (62 + base)) BASE62)
    as Halphabet.
  { unfold Py.slice, Py.bound. change (Py.len BASE62) with 62.
    destruct (Z.ltb_spec base 0); [|lia].
    destruct (Z.ltb_spec (62 + base) 0); [lia|].
    rewrite Z.max_r, Z.min_l by lia. do 2 f_equal. lia. }
  revert number. induction fuel as [|fuel IH]; intros number.
  - destruct (Z.lt_ge_cases number 0).
    + simpl. destruct (Z.ltb_spec 62 base), (Z.ltb_spec 62 (62 + base)); try lia.
      destruct (Z.ltb_spec number 0); [reflexivity | lia].
    + rewrite !int_to_base_nonneg by lia. now rewrite Halphabet.
  - destruct (Z.lt_ge_cases number 0).
    + rewrite !int_to_base_neg by lia. now rewrite IH.
    + rewrite !int_to_base_nonneg by lia. now rewrite Halphabet.
Qed.

Lemma int_to_base_negative_base_witness :
  int_to_base 10 61 (-1) = int_to_base 10 61 (62 + -1).
Proof. apply int_to_base_negative_base. lia. Defined.

(** ** Tokens and their masks *)

Lemma alphabet_62 : Py.slice None (Some 62) BASE62 = BASE62.
Proof. reflexivity. Qed.

Lemma generate_random_token_run (nbytes : Z) (L fuel : nat) (w : world) :
  0 ≤ nbytes → 256 ^ nbytes ≤ 62 ^ Z.of_nat L → (L ≤ fuel)%nat →
  ∃ token,
    generate_random_token fuel nbytes w =
      (Some (Return token), set_secrets (advance (secrets w)) w) ∧
    (1 ≤ String.length token ≤ Nat.max 1 L)%nat ∧
    all_in BASE62 token = true.
Proof.
  intros Hn HL Hfuel. unfold generate_random_token, randbits, getrandbits.
  destruct (Z.ltb_spec (nbytes * 8) 0); [lia|].
  set (x := tape (secrets w) (cursor (secrets w)) mod 2 ^ (nbytes * 8)).
  assert (0 ≤ x < 62 ^ Z.of_nat L) as Hx.
  { pose proof (Z.mod_pos_bound (tape (secrets w) (cursor (secrets w)))
                  (2 ^ (nbytes * 8)) ltac:(lia)) as Hmod.
    fold x in Hmod. replace (2 ^ (nbytes * 8)) with (256 ^ nbytes) in Hmod; [lia|].
    change 256 with (2 ^ 8). rewrite <- Z.pow_mul_r by lia. f_equal. lia. }
  destruct (int_to_base_nonneg_spec x 62 L fuel ltac:(lia) Hx Hfuel)
    as (token & Hrun & Hlen & Hall & _).
  rewrite alphabet_62 in Hall. exists token. now rewrite Hrun.
Qed.

(** X15: [generate_random_token(nbytes)] draws once from the system's
    source and returns a string of 1 to [L] symbols of [BASE62], for
    every [L] with [256 ^ nbytes ≤ 62 ^ L]: at most 43 characters for
    the default of 32 bytes, 48 for 35 bytes. [L] iterations of the
    encoding loop are enough. *)
Theorem generate_random_token_length (nbytes : Z) (L fuel : nat) (w : world) :
  0 ≤ nbytes → 256 ^ nbytes ≤ 62 ^ Z.of_nat L → (L ≤ fuel)%nat →
  ∃ token,
    generate_random_token fuel nbytes w =
      (Some (Return token), set_secrets (advance (secrets w)) w) ∧
    (1 ≤ String.length token ≤ Nat.max 1 L)%nat ∧
    all_in BASE62 token = true.
Proof. exact (generate_random_token_run nbytes L fuel w). Qed.

Lemma generate_random_token_length_witness :
  ∃ token,
    generate_random_token 43 32 fresh_world =
      (Some (Return token), set_secrets (advance (secrets fresh_world)) fresh_world) ∧
    (1 ≤ String.length token ≤ Nat.max 1 43)%nat ∧
    all_in BASE62 token = true.
Proof.
  apply generate_random_token_length; [lia | vm_compute; discriminate | lia].
Defined.

Lemma mask_key_value_long (value : string) :
  (16 ≤ String.length value)%nat →
  mask_key_value value =
  Py.take 4 value +:+ "..." +:+ Py.drop (String.length value - 4) value.
Proof.
  intros H. unfold mask_key_value, Py.len.
  destruct (Z.ltb_spec (Z.of_nat (String.length value)) 16); [lia|].
  rewrite slice_prefix by lia. now rewrite (slice_suffix 4) by lia.
Qed.

Lemma mask_key_value_short (value : string) :
  (String.length value < 16)%nat → mask_key_value value = "********".
Proof.
  intros H. unfold mask_key_value, Py.len.
  destruct (Z.ltb_spec (Z.of_nat (String.length value)) 16); [reflexivity | lia].
Qed.

Lemma drop_append (n : nat) (s1 s2 : string) :
  Py.drop (String.length s1 + n) (s1 +:+ s2) = Py.drop n s2.
Proof. induction s1 as [|c s1 IH]; [reflexivity | exact IH]. Qed.

(** X16: a personal API key is "phx_" and a token of at most 48
    symbols of [BASE62]; its mask shows "phx_", "..." and the last 4
    characters of the token when the token has 12 characters or more,
    and is the eight asterisks when the token is shorter. *)
Theorem generate_random_token_personal_mask (fuel : nat) (w : world) :
  (48 ≤ fuel)%nat →
  ∃ token,
    (generate_random_token_personal fuel w).1 = Some (Return ("phx_" +:+ token)) ∧
    (1 ≤ String.length token ≤ 48)%nat ∧
    all_in BASE62 token = true ∧
    mask_key_value ("phx_" +:+ token) =
      if (String.length token <? 12)%nat then "********"
      else "phx_..." +:+ Py.drop (String.length token - 4) token.
Proof.
  intros Hfuel.
  destruct (generate_random_token_run 35 48 fuel w ltac:(lia)
              ltac:(vm_compute; discriminate) Hfuel)
    as (token & Hrun & Hlen & Hall).
  exists token. unfold generate_random_token_personal. rewrite Hrun.
  split; [reflexivity|]. split; [simpl in Hlen; lia|]. split; [exact Hall|].
  destruct (Nat.ltb_spec (String.length token) 12) as [Hshort|Hlong].
  - apply mask_key_value_short. rewrite length_append. simpl. lia.
  - rewrite mask_key_value_long by (rewrite length_append; simpl; lia).
    rewrite length_append. change (String.length "phx_") with 4%nat.
    replace (4 + String.length token - 4)%nat
      with (String.length "phx_" + (String.length token - 4))%nat by (simpl; lia).
    rewrite drop_append. reflexivity.
Qed.

Lemma generate_random_token_personal_mask_witness :
  ∃ token,
    (generate_random_token_personal 48 fresh_world).1
      = Some (Return ("phx_" +:+ token)) ∧
    (1 ≤ String.length token ≤ 48)%nat ∧
    all_in BASE62 token = true ∧
    mask_key_value ("phx_" +:+ token) =
      if (String.length token <? 12)%nat then "********"
      else "phx_..." +:+ Py.drop (String.length token - 4) token.
Proof. apply generate_random_token_personal_mask. lia. Defined.

(** The fallback the code calls impossible does happen: when the
    system's source yields 0 the personal key is "phx_0". *)
Example generate_random_token_personal_zero :
  (generate_random_token_personal 48 fresh_world).1 = Some (Return "phx_0") ∧
  mask_key_value "phx_0" = "********".
Proof. vm_compute. auto. Qed.

(** X17: a mask has 8 or 11 characters, so it never shows more than 8
    characters of the value, and masking a mask gives the eight
    asterisks. *)
Theorem mask_key_value_length (value : string) :
  (String.length (mask_key_value value) = 8%nat ∨
   String.length (mask_key_value value) = 11%nat) ∧
  mask_key_value (mask_key_value value) = "********".
Proof.
  assert (String.length (mask_key_value value) = 8%nat ∨
          String.length (mask_key_value value) = 11%nat) as Hlen.
  { destruct (Nat.lt_ge_cases (String.length value) 16) as [Hshort|Hlong].
    - left. now rewrite mask_key_value_short.
    - right. rewrite mask_key_value_long by assumption.
      rewrite !length_append, length_take, length_drop.
      change (String.length "...") with 3%nat. lia. }
  split; [exact Hlen|].
  apply mask_key_value_short. lia.
Qed.

(** ** validate_rate_limit *)

Lemma append_empty_r (s : string) : s +:+ "" = s.
Proof.
  induction s as [|c s IH]; [reflexivity|]. rewrite append_cons. now rewrite IH.
Qed.

Lemma append_eq_empty (s1 s2 : string) : s1 +:+ s2 = "" → s1 = "" ∧ s2 = "".
Proof. destruct s1; [auto | discriminate]. Qed.

Lemma append_eq_cons (c : ascii) (s s1 s2 : string) :
  s1 +:+ s2 = String c s →
  (s1 = "" ∧ s2 = String c s) ∨ ∃ s1', s1 = String c s1' ∧ s = s1' +:+ s2.
Proof.
  destruct s1 as [|d s1]; [auto|].
  rewrite append_cons. intros [= -> <-]. eauto.
Qed.

Lemma matches_cat_inv (r1 r2 : regex) (s : string) :
  matches (Cat r1 r2) s ↔ ∃ s1 s2, s = s1 +:+ s2 ∧ matches r1 s1 ∧ matches r2 s2.
Proof.
  split.
  - inversion 1; subst; eauto.
  - intros (s1 & s2 & -> & H1 & H2). now constructor.
Qed.

Lemma matches_alt_inv (r1 r2 : regex) (s : string) :
  matches (Alt r1 r2) s ↔ matches r1 s ∨ matches r2 s.
Proof.
  split.
  - inversion 1; subst; auto.
  - intros [H|H]; [now apply matches_alt_l | now apply matches_alt_r].
Qed.

Lemma matches_class_inv (p : ascii → bool) (s : string) :
  matches (Class p) s ↔ ∃ c, s = String c "" ∧ p c = true.
Proof.
  split.
  - inversion 1; subst; eauto.
  - intros (c & -> & H). now constructor.
Qed.

Lemma matches_eps_inv (s : string) : matches Eps s ↔ s = "".
Proof. split; [now inversion 1 | intros ->; constructor]. Qed.

Lemma matches_never_inv (s : string) : matches Never s ↔ False.
Proof. split; [inversion 1 | contradiction]. Qed.

(** A non-empty match of [r*] starts with a non-empty match of [r]. *)
Lemma matches_star_cons_inv (r : regex) (c : ascii) (s : string) :
  matches (Star r) (String c s) →
  ∃ s1 s2, s = s1 +:+ s2 ∧ matches r (String c s1) ∧ matches (Star r) s2.
Proof.
  intros H. remember (Star r) as r' eqn:Er. remember (String c s) as s' eqn:Es.
  revert Er Es.
  induction H as [| | | | | |r0 s1 s2 H1 _ H2 IH2]; intros Er Es; try discriminate.
  injection Er as ->.
  apply append_eq_cons in Es as [[-> ->]|(s1' & -> & ->)].
  - now apply IH2.
  - eauto.
Qed.

Lemma nullable_matches (r : regex) : nullable r = true ↔ matches r "".
Proof.
  induction r as [| |p|r1 IH1 r2 IH2|r1 IH1 r2 IH2|r IH]; cbn [nullable].
  - rewrite matches_never_inv. split; [discriminate | contradiction].
  - rewrite matches_eps_inv. tauto.
  - rewrite matches_class_inv. split; [discriminate|]. intros (c & E & _). discriminate.
  - rewrite andb_true_iff, IH1, IH2, matches_cat_inv. split.
    + intros [H1 H2]. now exists "", "".
    + intros (s1 & s2 & E & H1 & H2). symmetry in E.
      apply append_eq_empty in E as [-> ->]. auto.
  - now rewrite orb_true_iff, IH1, IH2, matches_alt_inv.
  - split; [constructor | reflexivity].
Qed.

Lemma deriv_matches (r : regex) :
  ∀ (c : ascii) (s : string), matches (deriv c r) s ↔ matches r (String c s).
Proof.
  induction r as [| |p|r1 IH1 r2 IH2|r1 IH1 r2 IH2|r IH]; intros c s; cbn [deriv].
  - rewrite !matches_never_inv. tauto.
  - rewrite matches_never_inv, matches_eps_inv. split; [contradiction | discriminate].
  - rewrite matches_class_inv. destruct (p c) eqn:E.
    + rewrite matches_eps_inv. split.
      * intros ->. eauto.
      * intros (d & [= -> ->] & _). reflexivity.
    + rewrite matches_never_inv. split; [contradiction|].
      intros (d & [= -> ->] & H). congruence.
  - rewrite matches_alt_inv, !matches_cat_inv. split.
    + intros [(s1 & s2 & -> & H1 & H2)|H].
      * apply IH1 in H1. exists (String c s1), s2. auto.
      * destruct (nullable r1) eqn:E; [|now apply matches_never_inv in H].
        apply IH2 in H. apply nullable_matches in E. exists "", (String c s). auto.
    + intros (s1 & s2 & E & H1 & H2). symmetry in E.
      apply append_eq_cons in E as [[-> ->]|(s1' & -> & ->)].
      * right. apply nullable_matches in H1. rewrite H1. now apply IH2.
      * left. apply IH1 in H1. eauto.
  - rewrite !matches_alt_inv, IH1, IH2. tauto.
  - rewrite matches_cat_inv. split.
    + intros (s1 & s2 & -> & H1 & H2). apply IH in H1.
      apply (matches_star_cons r (String c s1) s2 H1 H2).
    + intros H. apply matches_star_cons_inv in H as (s1 & s2 & -> & H1 & H2).
      apply IH in H1. eauto.
Qed.

(** [re_match] decides [matches]. *)
Lemma re_match_matches (s : string) :
  ∀ r, re_match r s = true ↔ matches r s.
Proof.
  induction s as [|c s IH]; intros r; cbn [re_match].
  - apply nullable_matches.
  - rewrite IH. apply deriv_matches.
Qed.

Lemma matches_lit (x s : string) : matches (Lit x) s ↔ s = x.
Proof.
  revert s. induction x as [|c x IH]; intros s; cbn [Lit].
  - apply matches_eps_inv.
  - rewrite matches_cat_inv. split.
    + intros (s1 & s2 & -> & H1 & H2).
      apply matches_class_inv in H1 as (d & -> & Hd).
      apply Ascii.eqb_eq in Hd as ->. apply IH in H2 as ->. reflexivity.
    + intros ->. exists (String c ""), x. split; [reflexivity|]. split.
      * constructor. apply Ascii.eqb_refl.
      * now apply IH.
Qed.

Lemma in_range_digits (c : ascii) : in_range "0" "9" c = Py.mem c digits.
Proof. destruct c as [[] [] [] [] [] [] [] []]; reflexivity. Qed.

Lemma matches_digits_star (s : string) :
  matches (Star (Class (in_range "0" "9"))) s ↔ all_in digits s = true.
Proof.
  induction s as [|c s IH]; cbn [all_in].
  - split; [reflexivity | constructor].
  - rewrite andb_true_iff, <- IH, <- in_range_digits. split.
    + intros H. apply matches_star_cons_inv in H as (s1 & s2 & -> & H1 & H2).
      apply matches_class_inv in H1 as (d & [= -> ->] & Hd). auto.
    + intros [Hc Hs].
      apply (matches_star_cons _ (String c "") s); [now constructor | exact Hs].
Qed.

Lemma matches_digits_plus (s : string) :
  matches (Plus (Class (in_range "0" "9"))) s ↔ s ≠ "" ∧ all_in digits s = true.
Proof.
  unfold Plus. rewrite matches_cat_inv. split.
  - intros (s1 & s2 & -> & H1 & H2).
    apply matches_class_inv in H1 as (d & -> & Hd).
    split; [discriminate|]. rewrite append_cons. cbn [all_in].
    rewrite <- in_range_digits, Hd. now apply matches_digits_star.
  - intros [Hne H]. destruct s as [|c s]; [contradiction|].
    cbn [all_in] in H. apply andb_true_iff in H as [Hc Hs].
    exists (String c ""), s. split; [reflexivity|]. split.
    + constructor. now rewrite in_range_digits.
    + now apply matches_digits_star.
Qed.

Lemma matches_one_of (units : list string) (s : string) :
  matches (foldr (λ u r, Alt (Lit u) r) Never units) s ↔ s ∈ units.
Proof.
  induction units as [|u units IH]; cbn [foldr].
  - rewrite matches_never_inv. split; [contradiction | inversion 1].
  - rewrite matches_alt_inv, matches_lit, IH, elem_of_cons. tauto.
Qed.

Lemma matches_dollar (s : string) :
  matches Dollar s ↔ s = "" ∨ s = String newline "".
Proof.
  unfold Dollar. rewrite matches_alt_inv, matches_eps_inv, matches_class_inv.
  split; (intros [H|H]; [now left | right]).
  - destruct H as (c & -> & Hc). now apply Ascii.eqb_eq in Hc as <-.
  - exists newline. split; [exact H | apply Ascii.eqb_refl].
Qed.

Lemma rate_limit_pattern_matches (v : string) :
  re_match rate_limit_pattern v = true ↔ rate_limit_format v.
Proof.
  rewrite re_match_matches. unfold rate_limit_pattern, rate_limit_format.
  rewrite matches_cat_inv. split.
  - intros (count & rest & -> & Hcount & Hrest).
    apply matches_digits_plus in Hcount as [Hne Hdigits].
    apply matches_cat_inv in Hrest as (slash & rest' & -> & Hslash & Hrest).
    apply matches_lit in Hslash as ->.
    apply matches_cat_inv in Hrest as (unit & tail & -> & Hunit & Htail).
    apply matches_one_of in Hunit. apply matches_dollar in Htail.
    exists count, unit, tail. auto.
  - intros (count & unit & tail & -> & Hne & Hdigits & Hunit & Htail).
    exists count, ("/" +:+ unit +:+ tail). split; [reflexivity|].
    split; [now apply matches_digits_plus|].
    apply matches_cat_inv. exists "/", (unit +:+ tail).
    split; [reflexivity|]. split; [now apply matches_lit|].
    apply matches_cat_inv. exists unit, tail.
    split; [reflexivity|]. split; [now apply matches_one_of | now apply matches_dollar].
Qed.

(** X18: [validate_rate_limit] lets through [None], the empty string,
    and a count of one or more digits 0-9, a slash and one of s, sec,
    m, min, h, hour, d, day, with or without one newline after it;
    on every other string it raises [ValidationError] with the value. *)
Theorem validate_rate_limit_spec (value : option string) :
  (validate_rate_limit value = Passes ↔
   value = None ∨ value = Some "" ∨ ∃ v, value = Some v ∧ rate_limit_format v) ∧
  (validate_rate_limit value = Passes ∨
   ∃ v, value = Some v ∧ validate_rate_limit value = ValidationError v).
Proof.
  destruct value as [v|]; cbn [validate_rate_limit].
  - destruct (String.eqb_spec v "") as [->|Hne]; cbn [negb andb].
    + split; [|now left]. split; auto.
    + destruct (re_match rate_limit_pattern v) eqn:E; cbn [negb].
      * apply rate_limit_pattern_matches in E. split; [|now left].
        split; [|reflexivity]. intros _. right. right. eauto.
      * split; [|right; eauto]. split; [discriminate|].
        intros [H|[H|(v' & H & Hformat)]]; [discriminate | congruence |].
        injection H as <-. apply rate_limit_pattern_matches in Hformat. congruence.
  - split; [|now left]. split; auto.
Qed.

Example validate_rate_limit_examples :
  validate_rate_limit (Some "5/s") = Passes ∧
  validate_rate_limit (Some "10/min") = Passes ∧
  validate_rate_limit (Some (String "1" (String "/" (String "d" (String newline "")))))
    = Passes ∧
  validate_rate_limit (Some "5/seconds") = ValidationError "5/seconds" ∧
  validate_rate_limit (Some "/s") = ValidationError "/s" ∧
  validate_rate_limit (Some " 5/s") = ValidationError " 5/s".
Proof. vm_compute. repeat split. Qed.

(** ** get_deferred_field_set_for_model *)

Lemma append_inj_l (prefix s1 s2 : string) :
  prefix +:+ s1 = prefix +:+ s2 → s1 = s2.
Proof.
  induction prefix as [|c p IH]; [auto|].
  rewrite !append_cons. intros [= H]. auto.
Qed.

(** X19: a name with the prefix is in the set exactly when it is a
    field of the model that is not among [fields_not_deferred] (none,
    when that is [None]); and the set holds nothing else. *)
Theorem get_deferred_field_set_spec (fields : list string)
    (fields_not_deferred : option (gset string)) (field_prefix : string) :
  (∀ name,
     field_prefix +:+ name
       ∈ get_deferred_field_set_for_model fields fields_not_deferred field_prefix ↔
     name ∈ fields ∧ name ∉ default ∅ fields_not_deferred) ∧
  (∀ x,
     x ∈ get_deferred_field_set_for_model fields fields_not_deferred field_prefix →
     ∃ name, x = field_prefix +:+ name ∧ name ∈ fields).
Proof.
  unfold get_deferred_field_set_for_model. split.
  - intros name. rewrite elem_of_list_to_set, list_elem_of_fmap. split.
    + intros (y & Heq & Hy). apply append_inj_l in Heq as ->.
      now apply list_elem_of_filter in Hy as [Hnot Hin].
    + intros [Hin Hnot]. exists name. split; [reflexivity|].
      now apply list_elem_of_filter.
  - intros x. rewrite elem_of_list_to_set, list_elem_of_fmap.
    intros (y & -> & Hy). apply list_elem_of_filter in Hy as [_ Hin]. eauto.
Qed.

Example get_deferred_field_set_team :
  get_deferred_field_set_for_model ["id"; "name"; "api_token"] (Some {[ "name" ]})
    "team__" = {[ "team__id"; "team__api_token" ]}.
Proof. vm_compute. reflexivity. Qed.

(** ** create_with_slug: the caller's slug and the random source *)

Lemma random_letters_source (n : nat) :
  ∀ r, tape (random_letters n r).2 = tape r ∧
       cursor (random_letters n r).2 = (cursor r + n)%nat.
Proof.
  induction n as [|n IH]; intros r; [simpl; split; [reflexivity | lia]|].
  cbn [random_letters]. unfold choice, randbelow.
  destruct (IH (advance r)) as [Htape Hcursor].
  destruct (random_letters n (advance r)) as [rest r2]. cbn [fst snd] in *.
  rewrite Htape, Hcursor. simpl. split; [reflexivity | lia].
Qed.

Section Slug_sources.

Variables T DB : Type.
Variable slugify : string → string.
Variable MAX_SLUG_LENGTH : Z.
Variable create_func : gmap string string → DB → result T * DB.

Lemma retry_loop_kwargs (retries : list nat) (base : string)
    (kwargs1 kwargs2 : gmap string string) (db : DB) (r : Random) :
  (∀ s, <["slug":=s]> kwargs1 = <["slug":=s]> kwargs2) →
  retry_loop MAX_SLUG_LENGTH retries create_func base kwargs1 db r =
  retry_loop MAX_SLUG_LENGTH retries create_func base kwargs2 db r.
Proof.
  intros H. destruct retries as [|retry_i retries]; [reflexivity|].
  cbn [retry_loop]. destruct (candidate_slug MAX_SLUG_LENGTH retry_i base r).
  now rewrite H.
Qed.

(** X20: a slug the caller passes among the keyword arguments is never
    used: the call goes as if it had not been passed. *)
Theorem create_with_slug_overwrites_slug (default_slug slug : string)
    (kwargs : gmap string string) (db : DB) (r : Random) :
  create_with_slug slugify MAX_SLUG_LENGTH create_func default_slug
    (<["slug":=slug]> kwargs) db r =
  create_with_slug slugify MAX_SLUG_LENGTH create_func default_slug
    (delete "slug" kwargs) db r.
Proof.
  unfold create_with_slug, slugified.
  rewrite lookup_insert_ne, lookup_delete_ne by discriminate.
  apply retry_loop_kwargs. intros s.
  now rewrite insert_insert_eq, insert_delete_eq.
Qed.

Lemma retry_loop_source (base : string) (retries : list nat) :
  ∀ (kwargs : gmap string string) (db : DB) (r : Random),
    Forall (λ i, 0 < i)%nat retries →
    let run := retry_loop MAX_SLUG_LENGTH retries create_func base kwargs db r in
    tape (run_random run) = tape r ∧
    cursor (run_random run) = (cursor r + 4 * length (run_slugs run))%nat.
Proof.
  induction retries as [|retry_i retries IH]; intros kwargs db r Hpos run.
  - subst run. simpl. split; [reflexivity | lia].
  - subst run. inversion Hpos as [|? ? Hi Hrest]; subst.
    cbn [retry_loop]. destruct retry_i as [|retry_i]; [lia|].
    cbn [candidate_slug]. unfold generate_random_short_suffix.
    destruct (random_letters_source 4 r) as [Htape Hcursor].
    destruct (random_letters 4 r) as [suffix r1]. cbn [snd] in *.
    destruct (atomic _ db) as [[v|e] db1].
    + cbn [run_random run_slugs length]. split; [exact Htape | lia].
    + destruct (is_IntegrityError e).
      * destruct (IH (<["slug":=Py.slice None (Some (MAX_SLUG_LENGTH - 5)) base +:+ "-" +:+ suffix]> kwargs)
                    db1 r1 Hrest) as [Ht Hc].
        unfold attempted. cbn [run_random run_slugs length].
        rewrite Ht, Hc. split; [exact Htape | lia].
      * cbn [run_random run_slugs length]. split; [exact Htape | lia].
Qed.

(** X21: the first attempt draws nothing from the random source and
    every retry draws exactly four times. *)
Theorem create_with_slug_random_draws (default_slug : string)
    (kwargs : gmap string string) (db : DB) (r : Random) :
  tape (run_random (create_with_slug slugify MAX_SLUG_LENGTH create_func
                      default_slug kwargs db r)) = tape r ∧
  (cursor (run_random (create_with_slug slugify MAX_SLUG_LENGTH create_func
                         default_slug kwargs db r)) + 4
   = cursor r + 4 * length (run_slugs (create_with_slug slugify MAX_SLUG_LENGTH
                                         create_func default_slug kwargs db r)))%nat.
Proof.
  unfold create_with_slug. set (base := slugified _ _ _ _).
  change (seq 0 10) with (0%nat :: seq 1 9). cbn [retry_loop candidate_slug].
  destruct (atomic _ db) as [[v|e] db1].
  - cbn [run_random run_slugs length]. split; [reflexivity | lia].
  - destruct (is_IntegrityError e).
    + destruct (retry_loop_source base (seq 1 9) (<["slug":=base]> kwargs) db1 r)
        as [Ht Hc].
      { apply Forall_forall. intros i Hi. apply elem_of_seq in Hi. lia. }
      unfold attempted. cbn [run_random run_slugs length].
      rewrite Ht, Hc. split; [reflexivity | lia].
    + cbn [run_random run_slugs length]. split; [reflexivity | lia].
Qed.

End Slug_sources.

(** ** Which sources a call draws from *)

Lemma random_bytes_source (n : nat) :
  ∀ r, tape (random_bytes n r).2 = tape r ∧
       cursor (random_bytes n r).2 = (cursor r + n)%nat.
Proof.
  induction n as [|n IH]; intros r; [simpl; split; [reflexivity | lia]|].
  cbn [random_bytes]. unfold getrandbits.
  destruct (IH (advance r)) as [Htape Hcursor].
  destruct (random_bytes n (advance r)) as [rest r2]. cbn [fst snd] in *.
  rewrite Htape, Hcursor. simpl. split; [reflexivity | lia].
Qed.

Lemma UUIDT_random_layout (t s rnd : Z) :
  0 ≤ rnd < 2 ^ 64 → UUIDT_random (t * 2 ^ 80 + s * 2 ^ 64 + rnd) = rnd.
Proof.
  intros Hr. unfold UUIDT_random. change (2 ^ 64 - 1) with (Z.ones 64).
  rewrite Z.land_ones by lia.
  replace (t * 2 ^ 80 + s * 2 ^ 64 + rnd) with (rnd + (t * 2 ^ 16 + s) * 2 ^ 64)
    by (change (2 ^ 80) with (2 ^ 16 * 2 ^ 64); lia).
  rewrite Z_mod_plus_full. apply Z.mod_small. lia.
Qed.

(** [UUIDT_mint] with its random bytes and sources spelled out. *)
Lemma UUIDT_mint_exact (unix_time_ms : option Z) (seeded_random : option Random)
    (w : world) :
  let t := mint_time unix_time_ms w in
  let d := current_series_per_ms w in
  let source := match seeded_random with Some r => r | None => secrets w end in
  let w1 := set_series (get_series t d).2 w in
  0 ≤ t < 2 ^ 48 → 0 ≤ counter t d < 65536 →
  UUIDT_mint unix_time_ms seeded_random w =
    (Return (t * 2 ^ 80 + counter t d * 2 ^ 64
             + Py.from_bytes_big (random_bytes 8 source).1),
     match seeded_random with
     | Some _ => w1
     | None => set_secrets (random_bytes 8 source).2 w1
     end,
     match seeded_random with
     | Some _ => Some (random_bytes 8 source).2
     | None => None
     end) ∧
  0 ≤ Py.from_bytes_big (random_bytes 8 source).1 < 2 ^ 64.
Proof.
  intros t d source w1 Ht Hc. subst w1. unfold UUIDT_mint. fold t. fold d.
  destruct (to_bytes_in_range t 6 Ht) as (tc & -> & Htc_len & Htc).
  rewrite get_series_eq.
  destruct (to_bytes_in_range (counter t d) 2 Hc) as (sc & -> & Hsc_len & Hsc).
  cbn [snd]. set (d' := <[t:=(counter t d + 1) mod 65536]> _).
  assert (secrets (set_series d' w) = secrets w) as Hsecrets by reflexivity.
  pose proof (random_bytes_length 8 source) as Hlen.
  pose proof (from_bytes_big_range (random_bytes 8 source).1) as Hrange.
  rewrite Hlen in Hrange. change (256 ^ Z.of_nat 8) with (2 ^ 64) in Hrange.
  split; [|exact Hrange].
  assert (UUID_of_bytes (tc ++ sc ++ (random_bytes 8 source).1) =
          Return (t * 2 ^ 80 + counter t d * 2 ^ 64
                  + Py.from_bytes_big (random_bytes 8 source).1)) as Hvalue.
  { unfold UUID_of_bytes. rewrite !length_app, Htc_len, Hsc_len, Hlen. simpl negb.
    cbv iota. rewrite !from_bytes_big_app, !length_app, Htc, Hsc, Hsc_len, Hlen.
    change (256 ^ Z.of_nat (2 + 8)) with (2 ^ 80).
    change (256 ^ Z.of_nat 8) with (2 ^ 64).
    rewrite UUID_of_int_in_range by lia. f_equal. lia. }
  subst source. destruct seeded_random as [r|].
  - destruct (random_bytes 8 r) as [rc r'] eqn:E. cbn [fst snd] in *.
    now rewrite Hvalue.
  - unfold token_bytes. rewrite Hsecrets.
    destruct (random_bytes 8 (secrets w)) as [rc r'] eqn:E. cbn [fst snd] in *.
    now rewrite Hvalue.
Qed.

(** X22: a fresh [UUIDT] draws its 64 random bits as eight bytes from
    the seeded generator when one is given, and then leaves the
    system's source alone; without one it draws them from the system's
    source. Either way the source drawn from is left eight draws
    further, and the random field of the identifier is those bytes,
    first byte first. *)
Theorem UUIDT_mint_sources (unix_time_ms : option Z) (seeded_random : option Random)
    (w : world) :
  reachable (current_series_per_ms w) → 0 ≤ mint_time unix_time_ms w < 2 ^ 48 →
  ∃ u w' seeded_random',
    UUIDT_mint unix_time_ms seeded_random w = (Return u, w', seeded_random') ∧
    match seeded_random with
    | Some r =>
        UUIDT_random u = Py.from_bytes_big (random_bytes 8 r).1 ∧
        secrets w' = secrets w ∧
        ∃ r', seeded_random' = Some r' ∧ tape r' = tape r ∧
              cursor r' = (cursor r + 8)%nat
    | None =>
        UUIDT_random u = Py.from_bytes_big (random_bytes 8 (secrets w)).1 ∧
        seeded_random' = None ∧ tape (secrets w') = tape (secrets w) ∧
        cursor (secrets w') = (cursor (secrets w) + 8)%nat
    end.
Proof.
  intros Hd Ht.
  pose proof (reachable_counter_range _ Hd (mint_time unix_time_ms w)) as Hc.
  destruct (UUIDT_mint_exact unix_time_ms seeded_random w Ht Hc) as [Hmint Hrange].
  eexists _, _, _. split; [exact Hmint|].
  rewrite UUIDT_random_layout by exact Hrange.
  destruct seeded_random as [r|].
  - destruct (random_bytes_source 8 r) as [Htape Hcursor].
    split; [reflexivity|]. split; [reflexivity|]. eauto.
  - destruct (random_bytes_source 8 (secrets w)) as [Htape Hcursor].
    split; [reflexivity|]. split; [reflexivity|]. split; assumption.
Qed.

Lemma UUIDT_mint_sources_witness :
  ∃ u w' seeded_random',
    UUIDT_mint (Some 1700000000000) (Some counting) fresh_world
      = (Return u, w', seeded_random') ∧
    (UUIDT_random u = Py.from_bytes_big (random_bytes 8 counting).1 ∧
     secrets w' = secrets fresh_world ∧
     ∃ r', seeded_random' = Some r' ∧ tape r' = tape counting ∧
           cursor r' = (cursor counting + 8)%nat).
Proof.
  apply (UUIDT_mint_sources (Some 1700000000000) (Some counting) fresh_world).
  - constructor.
  - simpl. lia.
Defined.

Section uuid7_sources.

Variable isoformat_ms : string → option Z.

(** X23: [uuid7] never touches the series counter of [UUIDT]; and
    without a randomness argument it draws exactly ten bytes from the
    system's source, while with one it leaves that source alone. *)
Theorem uuid7_frame (unix_ms_time : time_arg) (random : random_arg) (w : world) :
  current_series_per_ms (uuid7 isoformat_ms unix_ms_time random w).1.2
    = current_series_per_ms w ∧
  tape (secrets (uuid7 isoformat_ms unix_ms_time random w).1.2) = tape (secrets w) ∧
  match random, (uuid7 isoformat_ms unix_ms_time random w).1.1 with
  | RandomNone, Return _ =>
      cursor (secrets (uuid7 isoformat_ms unix_ms_time random w).1.2)
        = (cursor (secrets w) + 10)%nat
  | _, _ => (uuid7 isoformat_ms unix_ms_time random w).1.2 = w
  end.
Proof.
  pose proof (uuid7_returns isoformat_ms unix_ms_time random w) as Hret.
  unfold uuid7 in *.
  destruct (uuid7_time isoformat_ms unix_ms_time w) as [t|e].
  - cbn [fst] in Hret. destruct random as [|seed|r].
    + unfold uuid7_random, token_bytes in *.
      destruct (random_bytes_source 10 (secrets w)) as [Htape Hcursor].
      destruct (random_bytes 10 (secrets w)) as [bs s']. cbn [fst snd] in *.
      rewrite Hret. auto.
    + cbn [uuid7_random fst snd] in *. auto.
    + cbn [uuid7_random getrandbits fst snd] in *. auto.
  - cbn [fst snd]. destruct random; auto.
Qed.

End uuid7_sources.

(** X24: with enough fuel for 35 bytes, the three kinds of key are
    "phc_", "phx_" and "phs_" each followed by a token of symbols of
    [BASE62], of at most 43, 48 and 48 characters; keys of different
    kinds are never equal. *)
Theorem generate_random_token_families (fuel : nat) (w1 w2 w3 : world) :
  (48 ≤ fuel)%nat →
  ∃ project personal secret,
    (generate_random_token_project fuel w1).1 = Some (Return ("phc_" +:+ project)) ∧
    (generate_random_token_personal fuel w2).1 = Some (Return ("phx_" +:+ personal)) ∧
    (generate_random_token_secret fuel w3).1 = Some (Return ("phs_" +:+ secret)) ∧
    (1 ≤ String.length project ≤ 43)%nat ∧
    (1 ≤ String.length personal ≤ 48)%nat ∧
    (1 ≤ String.length secret ≤ 48)%nat ∧
    all_in BASE62 project = true ∧ all_in BASE62 personal = true ∧
    all_in BASE62 secret = true ∧
    "phc_" +:+ project ≠ "phx_" +:+ personal ∧
    "phc_" +:+ project ≠ "phs_" +:+ secret ∧
    "phx_" +:+ personal ≠ "phs_" +:+ secret.
Proof.
  intros Hfuel.
  destruct (generate_random_token_run 32 43 fuel w1 ltac:(lia)
              ltac:(vm_compute; discriminate) ltac:(lia)) as (p & Hp & Hlp & Hap).
  destruct (generate_random_token_run 35 48 fuel w2 ltac:(lia)
              ltac:(vm_compute; discriminate) Hfuel) as (x & Hx & Hlx & Hax).
  destruct (generate_random_token_run 35 48 fuel w3 ltac:(lia)
              ltac:(vm_compute; discriminate) Hfuel) as (s & Hs & Hls & Has).
  exists p, x, s.
  unfold generate_random_token_project, generate_random_token_personal,
    generate_random_token_secret. rewrite Hp, Hx, Hs. cbn [with_prefix fst].
  repeat (split; [first [reflexivity | assumption | simpl in *; lia | discriminate]|]).
  discriminate.
Qed.

Lemma generate_random_token_families_witness :
  ∃ project personal secret,
    (generate_random_token_project 48 fresh_world).1
      = Some (Return ("phc_" +:+ project)) ∧
    (generate_random_token_personal 48 fresh_world).1
      = Some (Return ("phx_" +:+ personal)) ∧
    (generate_random_token_secret 48 fresh_world).1
      = Some (Return ("phs_" +:+ secret)) ∧
    (1 ≤ String.length project ≤ 43)%nat ∧
    (1 ≤ String.length personal ≤ 48)%nat ∧
    (1 ≤ String.length secret ≤ 48)%nat ∧
    all_in BASE62 project = true ∧ all_in BASE62 personal = true ∧
    all_in BASE62 secret = true ∧
    "phc_" +:+ project ≠ "phx_" +:+ personal ∧
    "phc_" +:+ project ≠ "phs_" +:+ secret ∧
    "phx_" +:+ personal ≠ "phs_" +:+ secret.
Proof. apply generate_random_token_families. lia. Defined.

(** ** UUIDT: the series of consecutive generations *)

Section UUIDT_runs.

Variable int16 : string → option Z.

Lemma UUIDT_generations_cons (k : nat) (t : Z) (seeded_random : option Random)
    (w : world) :
  UUIDT_generations int16 (S k) t seeded_random w =
  let first := UUIDT_init int16 (Some t) None seeded_random w in
  let rest := UUIDT_generations int16 k t first.2 first.1.2 in
  (first.1.1 :: rest.1.1, rest.1.2, rest.2).
Proof.
  cbn [UUIDT_generations].
  destruct (UUIDT_init int16 (Some t) None seeded_random w) as [[u w1] r1].
  cbn [fst snd]. now destruct (UUIDT_generations int16 k t r1 w1) as [[us w2] r2].
Qed.

(** One construction at a 48-bit timestamp whose counter is a 16-bit
    value: the identifier carries the timestamp and the counter, and
    the counter is advanced. *)
Lemma UUIDT_init_generation (t : Z) (seeded_random : option Random) (w : world) :
  0 ≤ t < 2 ^ 48 → 0 ≤ counter t (current_series_per_ms w) < 65536 →
  ∃ u, (UUIDT_init int16 (Some t) None seeded_random w).1.1 = Return u ∧
       UUIDT_timestamp u = t ∧
       UUIDT_series u = counter t (current_series_per_ms w) ∧
       counter t (current_series_per_ms
                    (UUIDT_init int16 (Some t) None seeded_random w).1.2)
         = (counter t (current_series_per_ms w) + 1) mod 65536.
Proof.
  intros Ht Hc. rewrite UUIDT_init_no_string.
  pose proof (UUIDT_mint_exact (Some t) seeded_random w) as H.
  cbv zeta in H. cbn [mint_time] in H. destruct (H Ht Hc) as [Hmint Hrange].
  rewrite Hmint. cbn [fst snd]. eexists. split; [reflexivity|].
  rewrite UUIDT_timestamp_layout, UUIDT_series_layout by assumption.
  split; [reflexivity|]. split; [reflexivity|].
  destruct seeded_random; cbn [current_series_per_ms set_series set_secrets];
    apply get_series_counter.
Qed.

(** [k] constructions in a row count up from where the counter of the
    timestamp stands, as long as they stay below 65536. *)
Lemma UUIDT_generations_counts (t : Z) (k : nat) :
  0 ≤ t < 2 ^ 48 →
  ∀ (seeded_random : option Random) (w : world) (c : Z),
    counter t (current_series_per_ms w) = c mod 65536 →
    0 ≤ c → c + Z.of_nat k ≤ 65536 →
    ∃ us : list Z,
      (UUIDT_generations int16 k t seeded_random w).1.1 = Return <$> us ∧
      UUIDT_series <$> us = (λ i, c + Z.of_nat i) <$> seq 0 k ∧
      Forall (λ u, UUIDT_timestamp u = t) us ∧
      counter t (current_series_per_ms
                   (UUIDT_generations int16 k t seeded_random w).1.2)
        = (c + Z.of_nat k) mod 65536.
Proof.
  intros Ht. induction k as [|k IH]; intros seeded_random w c Hc H0 Hk.
  - exists []. cbn [UUIDT_generations fst snd]. rewrite Z.add_0_r. auto.
  - rewrite UUIDT_generations_cons. cbv zeta. cbn [fst snd].
    destruct (UUIDT_init_generation t seeded_random w Ht
                ltac:(rewrite Hc; apply Z.mod_pos_bound; lia))
      as (u & Hu & Htime & Hseries & Hnext).
    destruct (IH (UUIDT_init int16 (Some t) None seeded_random w).2
                 (UUIDT_init int16 (Some t) None seeded_random w).1.2 (c + 1))
      as (us & Hus & Hall_series & Hall_time & Hlast); [|lia|lia|].
    { rewrite Hnext, Hc. now rewrite Zplus_mod_idemp_l. }
    exists (u :: us). rewrite Hu, Hus. split; [reflexivity|]. split.
    + cbn [fmap list_fmap seq]. rewrite Hseries, Hc, Z.mod_small by lia.
      f_equal; [lia|]. change (list_fmap Z Z UUIDT_series us) with (UUIDT_series <$> us).
      rewrite Hall_series, <- seq_shift, <- list_fmap_compose.
      apply list_fmap_ext. intros _ i _. simpl. lia.
    + split; [now constructor|]. rewrite Hlast. f_equal. lia.
Qed.


End UUIDT_runs.


